(** * AMQPService (lib/services/amqp.service.ts): connection and link lifecycle

    A shallow embedding of [AMQPService]: [createConnection] with its four
    connection-event handlers and its open/retry loop, [createSender] and
    [createReceiver] with the receiver's open-confirmation handler.

    The transport library (rhea-promise) and the dependency-injection
    container are outside the repository's sources.  They appear here as
    an explicit environment: what every call of [connection.open()]
    settles to, which transport events reach the connection meanwhile,
    and what the container holds under a token. *)

From Stdlib Require Import ZArith Bool.
From Equations Require Import Equations.
From stdpp Require Import gmap strings list fin_maps pretty.

Local Open Scope Z_scope.

(** ** Values shared by the service *)

(** [ConnectionEvents] of rhea-promise, the four the service listens to. *)
Inductive ConnectionEvents :=
| connectionOpen
| connectionError
| disconnected
| connectionClose.

(** The two names published on [AMQPService.eventEmitter]. *)
Inductive BusEvent :=
| AMQP_CONNECTION_DISCONNECTED
| AMQP_CONNECTION_RECONNECT.

Inductive Level := silly | warn | error.

Global Instance ConnectionEvents_eq_dec : EqDecision ConnectionEvents.
Proof. solve_decision. Defined.

Global Instance BusEvent_eq_dec : EqDecision BusEvent.
Proof. solve_decision. Defined.

(** What the code does that an observer of the process can see. *)
Inductive Effect :=
| Log (lvl : Level) (args : list string)
| Emit (e : BusEvent)                 (* AMQPService.eventEmitter.emit(e) *)
| Open                                (* connection.open() *)
| Sleep (ms : Z)                      (* await new Promise(r => setTimeout(r, ms)) *)
| SetTimeout (ms : Z)                 (* setTimeout(callback, ms) *)
| ClearTimeout                        (* clearTimeout(timeoutHandler) *)
| Dispatch (e : ConnectionEvents)     (* _connection.dispatch(e, void 0) *)
| AddCredit (n : Z).                  (* receiver.addCredit(n) *)

(** The subset of rhea's [ConnectionOptions] the service reads, and the
    rest of the object as a map. *)
Record ConnectionOptions := {
  initial_reconnect_delay : option Z;
  reconnect_limit : option Z;
  transport : gmap string string;
}.

Record AMQPModuleOptions := {
  name : option string;
  connectionUri : option string;
  connectionOptions : option ConnectionOptions;
}.

(** The handle [container.createConnection] returns: the options it was
    built from.  Its mutable part lives in [Runtime]. *)
Record Connection := { conn_options : ConnectionOptions }.

(** [context] of a connection event: [ErrorMessage.fromContext(context)]
    and [context.connection.id]. *)
Record EventContext := {
  ctx_error : option string;
  ctx_connection_id : string;
}.

(** The context of a dispatch with [void 0]. *)
Definition no_context : EventContext :=
  {| ctx_error := None; ctx_connection_id := "" |}.

(** How one [connection.open()] settles. *)
Inductive Settled :=
| Resolved
| Rejected (reason : string).

(** One call of [connection.open()] as the transport decides it: how the
    promise settles, what [isOpen()] answers afterwards, and the events the
    transport raises on the connection while the call is pending. *)
Record OpenOutcome := {
  settled : Settled;
  open_after : bool;
  raised : list (ConnectionEvents * EventContext);
}.

(** The argument of [getConnectionToken]: options, a name, or nothing. *)
Inductive TokenArg :=
| ArgMissing
| ArgName (n : string)
| ArgOptions (o : AMQPModuleOptions).

Inductive JsError :=
| Error (message : string)            (* new Error(message) *)
| UnknownElement (token : string)     (* moduleRef.get finds no provider *)
| TypeError                           (* a method called on undefined *)
| Foreign (message : string).         (* thrown or rejected by the transport *)

(** The collaborators of [createConnection] that are not in the sources. *)
Record Env := {
  getConnectionToken : TokenArg -> string;
  parseURL : string -> string + ConnectionOptions;
  open_outcome : nat -> OpenOutcome;   (* the k-th call of connection.open() *)
}.

(** The state the handlers and the retry loop work on. *)
Record Runtime := {
  rt_open : bool;                      (* connection.isOpen() *)
  rt_opens : nat;                      (* calls of connection.open() so far *)
  rt_handlers : list ConnectionEvents; (* connection.on(e, ...) registrations *)
  rt_timers : list Z;                  (* pending setTimeout callbacks, by delay *)
  rt_listeners : BusEvent -> nat;      (* listeners on AMQPService.eventEmitter *)
}.

(** The process before [createConnection]: nothing registered, nothing
    pending, [listeners] on the event emitter. *)
Definition boot (listeners : BusEvent -> nat) : Runtime :=
  {| rt_open := false; rt_opens := 0; rt_handlers := [];
     rt_timers := []; rt_listeners := listeners |}.

(** ** Actions: state passing with the effects written out *)

Definition Act (A : Type) : Type := Runtime -> A * Runtime * list Effect.

Definition ret {A} (a : A) : Act A := fun s => (a, s, []).

Definition bind {A B} (m : Act A) (f : A -> Act B) : Act B :=
  fun s =>
    let '(a, s1, t1) := m s in
    let '(b, s2, t2) := f a s1 in
    (b, s2, t1 ++ t2).

Notation "x <- m ;; k" := (bind m (fun x => k))
  (at level 100, m at next level, right associativity).
Notation "m ;;; k" := (bind m (fun _ => k))
  (at level 100, right associativity).

Definition result {A} (r : A * Runtime * list Effect) : A := r.1.1.
Definition final {A} (r : A * Runtime * list Effect) : Runtime := r.1.2.
Definition effects {A} (r : A * Runtime * list Effect) : list Effect := r.2.

Definition perform (e : Effect) : Act unit := fun s => (tt, s, [e]).
Definition log (lvl : Level) (args : list string) : Act unit := perform (Log lvl args).

(** [args.filter(e => e)] on a message and an optional detail. *)
Definition truthy (detail : option string) : list string :=
  match detail with
  | Some d => if decide (d = "") then [] else [d]
  | None => []
  end.

(** [AMQPService.eventEmitter.emit(e)]: true when a listener was called. *)
Definition emit (e : BusEvent) : Act bool :=
  fun s => (bool_decide (0 < rt_listeners s e)%nat, s, [Emit e]).

Definition isOpen : Act bool := fun s => (rt_open s, s, []).

(** [connection.on(e, handler)]. *)
Definition connection_on (e : ConnectionEvents) : Act unit :=
  fun s => (tt,
            {| rt_open := rt_open s; rt_opens := rt_opens s;
               rt_handlers := rt_handlers s ++ [e];
               rt_timers := rt_timers s; rt_listeners := rt_listeners s |},
            []).

(** [setTimeout(callback, ms)]: the callback is pending. *)
Definition setTimeout (ms : Z) : Act unit :=
  fun s => (tt,
            {| rt_open := rt_open s; rt_opens := rt_opens s;
               rt_handlers := rt_handlers s;
               rt_timers := rt_timers s ++ [ms]; rt_listeners := rt_listeners s |},
            [SetTimeout ms]).

(** ** The four handlers registered by [createConnection] *)

Definition on_connectionOpen (token : string) (context : EventContext) : Act unit :=
  log silly ["Connection opened: " +:+ token; ctx_connection_id context].

Definition on_connectionError (token : string) (context : EventContext) : Act unit :=
  log error (("Connection error: " +:+ token) :: truthy (ctx_error context)).

Definition on_disconnected (token : string) (context : EventContext) : Act unit :=
  log warn (("Connection closed by peer: " +:+ token) :: truthy (ctx_error context)) ;;;
  emitted <- emit AMQP_CONNECTION_DISCONNECTED ;;
  if emitted then ret tt else log warn ["disconnect event not emitted"].

(** The synchronous part of the [connectionClose] handler; the body of its
    timeout is [reopen] below. *)
Definition on_connectionClose (token : string) (context : EventContext) : Act unit :=
  (match truthy (ctx_error context) with
   | [] => log warn ["Connection closed: " +:+ token]
   | _ => log error ["Connection closed: " +:+ token]
   end) ;;;
  setTimeout 1000.

Definition handler (token : string) (e : ConnectionEvents) : EventContext -> Act unit :=
  match e with
  | connectionOpen => on_connectionOpen token
  | connectionError => on_connectionError token
  | disconnected => on_disconnected token
  | connectionClose => on_connectionClose token
  end.

(** An event raised on the connection runs the handler of every
    registration under its name, in registration order. *)
Fixpoint deliver_to (hs : list ConnectionEvents) (token : string)
    (e : ConnectionEvents) (context : EventContext) : Act unit :=
  match hs with
  | [] => ret tt
  | h :: hs' =>
      (if decide (h = e) then handler token e context else ret tt) ;;;
      deliver_to hs' token e context
  end.

Definition deliver (token : string) (e : ConnectionEvents) (context : EventContext)
    : Act unit :=
  fun s => deliver_to (rt_handlers s) token e context s.

Fixpoint deliver_all (token : string) (evs : list (ConnectionEvents * EventContext))
    : Act unit :=
  match evs with
  | [] => ret tt
  | (e, context) :: evs' => deliver token e context ;;; deliver_all token evs'
  end.

(** [await connection.open()], with the rejection as a value: the call is
    the next one of the environment; the events raised meanwhile reach the
    handlers before the promise settles. *)
Definition connection_open (env : Env) (token : string) : Act Settled :=
  fun s =>
    let o := open_outcome env (rt_opens s) in
    let '(_, s1, t1) :=
      deliver_all token (raised o)
        {| rt_open := rt_open s; rt_opens := S (rt_opens s);
           rt_handlers := rt_handlers s;
           rt_timers := rt_timers s; rt_listeners := rt_listeners s |} in
    (settled o,
     {| rt_open := open_after o; rt_opens := rt_opens s1;
        rt_handlers := rt_handlers s1;
        rt_timers := rt_timers s1; rt_listeners := rt_listeners s1 |},
     Open :: t1).

(** The body of the timeout set by the [connectionClose] handler.  The
    dispatch on the underlying connection reaches the [disconnected]
    handlers of the connection with no context. *)
Definition reopen (env : Env) (token : string) : Act unit :=
  perform (Dispatch disconnected) ;;;
  deliver token disconnected no_context ;;;
  r <- connection_open env token ;;
  (match r with
   | Resolved =>
       log silly ["connection successfully reopened"] ;;;
       emitted <- emit AMQP_CONNECTION_RECONNECT ;;
       if emitted then ret tt else log warn ["reconnect event not emitted"]
   | Rejected reason =>
       log error ["reopening connection failed with error: " +:+ reason; reason]
   end) ;;;
  perform ClearTimeout.

(** ** The event loop around the connection *)

(** What can happen to a connection between two turns of the service's own
    code: the transport raises an event on it, or the oldest pending
    timeout fires. *)
Inductive Stimulus :=
| Raises (e : ConnectionEvents) (context : EventContext)
| TimerFires.

Definition fire (env : Env) (token : string) : Act unit :=
  fun s =>
    match rt_timers s with
    | [] => ret tt s
    | _ :: pending =>
        reopen env token
          {| rt_open := rt_open s; rt_opens := rt_opens s;
             rt_handlers := rt_handlers s;
             rt_timers := pending; rt_listeners := rt_listeners s |}
    end.

Definition step (env : Env) (token : string) (st : Stimulus) : Act unit :=
  match st with
  | Raises e context => deliver token e context
  | TimerFires => fire env token
  end.

Fixpoint run (env : Env) (token : string) (sts : list Stimulus) : Act unit :=
  match sts with
  | [] => ret tt
  | st :: sts' => step env token st ;;; run env token sts'
  end.

(** ** [createConnection] *)

(** The awaits of [createConnection] are taken one after the other.  Events
    the transport raises while a call of [connection.open()] is pending
    reach the handlers within that call; a timeout such a handler sets stays
    in [rt_timers] of the state the function leaves and is run by the event
    loop above. *)

(** [options.connectionOptions?.initial_reconnect_delay ?? 3000] *)
Definition reconnect_delay_of (options : AMQPModuleOptions) : Z :=
  match connectionOptions options with
  | Some co => default 3000 (initial_reconnect_delay co)
  | None => 3000
  end.

(** [options.connectionOptions?.reconnect_limit ?? 3] *)
Definition reconnect_limit_of (options : AMQPModuleOptions) : Z :=
  match connectionOptions options with
  | Some co => default 3 (reconnect_limit co)
  | None => 3
  end.

Definition no_options : ConnectionOptions :=
  {| initial_reconnect_delay := None; reconnect_limit := None; transport := ∅ |}.

(** [!!connectionUri ? parseURL(connectionUri) : {}] *)
Definition parsed_uri (env : Env) (options : AMQPModuleOptions)
    : string + ConnectionOptions :=
  match connectionUri options with
  | Some uri => if decide (uri = "") then inr no_options else parseURL env uri
  | None => inr no_options
  end.

(** [{ ...a, ...b }]: the properties of [b] win. *)
Definition spread (a : ConnectionOptions) (b : option ConnectionOptions)
    : ConnectionOptions :=
  match b with
  | None => a
  | Some b =>
      {| initial_reconnect_delay :=
           match initial_reconnect_delay b with
           | Some d => Some d
           | None => initial_reconnect_delay a
           end;
         reconnect_limit :=
           match reconnect_limit b with
           | Some l => Some l
           | None => reconnect_limit a
           end;
         transport := transport b ∪ transport a |}
  end.

(** How one turn of the [do ... while] body ends: at its [return;], or at
    the loop condition. *)
Inductive Turn :=
| ReturnsUndefined
| ReachesCondition.

(** The body of the [do ... while], after [retry++].  The effects are those
    of the call itself and of the handlers run for the events the transport
    raises while one of its [connection.open()] calls is pending.  While the
    call sleeps the event loop of the process goes on: a [connectionClose]
    timeout that is pending may fire and the transport may raise events.
    Those turns are turns of [run]; they are no part of the effects of
    [createConnection], so what is proved of [createConnection] is about
    its own calls of [connection.open()], its sleeps and its result, not
    about everything the event emitter carries while it runs. *)
Definition retry_body (env : Env) (options : AMQPModuleOptions) (token : string)
    : Act Turn :=
  log silly ["reopening connection..."] ;;;
  perform (Sleep (reconnect_delay_of options)) ;;;
  r <- connection_open env token ;;
  match r with
  | Resolved =>
      o <- isOpen ;;
      if o then emit AMQP_CONNECTION_RECONNECT ;;; ret ReturnsUndefined
      else ret ReachesCondition
  | Rejected reason =>
      log error ["Connection reopen failed: " +:+ token; reason] ;;;
      ret ReachesCondition
  end.

Definition after {A} (t : list Effect) (r : A * Runtime * list Effect)
    : A * Runtime * list Effect :=
  (r.1.1, r.1.2, t ++ r.2).

(** [do { retry++; body } while (retry < limit && !connection.isOpen());
    return connection;] entered with the value of [retry] before the
    increment.  [None] is the [undefined] of the bare [return;]. *)
Equations? retry_loop (limit : Z) (body : Act Turn) (connection : Connection)
    (retry : Z) (s : Runtime) : option Connection * Runtime * list Effect
    by wf (Z.to_nat (limit - retry)) lt :=
retry_loop limit body connection retry s with body s := {
  | (ReturnsUndefined, s1, t1) => (None, s1, t1)
  | (ReachesCondition, s1, t1) with Z_lt_dec (retry + 1) limit := {
      | right _ => (Some connection, s1, t1)
      | left _ with rt_open s1 := {
          | true => (Some connection, s1, t1)
          | false => after t1 (retry_loop limit body connection (retry + 1) s1) } } }.
Proof. lia. Qed.

(** [inl] is the rejection of the promise [createConnection] returns, [inr]
    the value it resolves with, [None] standing for [undefined]. *)
Definition createConnection (env : Env) (options : option AMQPModuleOptions)
    : Act (JsError + option Connection) :=
  let connectionToken :=
    getConnectionToken env
      (match options with Some o => ArgOptions o | None => ArgMissing end) in
  log silly ["Connection creating: " +:+ connectionToken] ;;;
  match options with
  | None => ret (inl (Error ("Invalid connection options: " +:+ connectionToken)))
  | Some opts =>
      match parsed_uri env opts with
      | inl thrown => ret (inl (Foreign thrown))
      | inr base =>
          let connection :=
            {| conn_options := spread base (connectionOptions opts) |} in
          connection_on connectionOpen ;;;
          connection_on connectionError ;;;
          connection_on disconnected ;;;
          connection_on connectionClose ;;;
          r <- connection_open env connectionToken ;;
          match r with
          | Resolved => ret (inr (Some connection))
          | Rejected reason =>
              log error ["Connection open failed: " +:+ connectionToken; reason] ;;;
              returned <- retry_loop (reconnect_limit_of opts)
                            (retry_body env opts connectionToken) connection 0 ;;
              ret (inr returned)
          end
      end
  end.

(** ** Links: [createSender] and [createReceiver] *)

Inductive SenderEvents := senderOpen | senderClose | senderError | senderDraining.

Inductive ReceiverEvents :=
| receiverOpen
| receiverClose
| receiverDrained
| receiverFlow
| settled_.                           (* ReceiverEvents.settled *)

Global Instance SenderEvents_eq_dec : EqDecision SenderEvents.
Proof. solve_decision. Defined.

Global Instance ReceiverEvents_eq_dec : EqDecision ReceiverEvents.
Proof. solve_decision. Defined.

Record LinkOptions := {
  link_name : string;
  link_address : string;
}.

Record AwaitableSender := {
  sender_name : string;
  sender_handlers : list SenderEvents;
}.

Record Receiver := {
  recv_name : string;
  credit : Z;
  recv_handlers : list ReceiverEvents;
}.

Record CreateSenderOptions := {
  connectionName : option string;
  senderOptions : LinkOptions;
}.

Record CreateReceiverOptions := {
  connectionToken : string;
  credits : Z;
  receiverOptions : LinkOptions;
}.

(** A connection as the container holds it: the handle and whether it is
    open when a link is asked for. *)
Record Live := {
  live_connection : Connection;
  live_open : bool;
}.

(** The service instance: [moduleRef], the providers by token.  A provider
    whose factory returned [undefined] is held as [None]. *)
Record Service := { moduleRef : gmap string (option Live) }.

(** The link operations of the transport library. *)
Record Transport := {
  rhea_createAwaitableSender : Live -> LinkOptions -> string + AwaitableSender;
  rhea_createReceiver : Live -> LinkOptions -> string + Receiver;
  rhea_addCredit : Z -> Z -> Z;        (* the credit after addCredit(n) *)
}.

(** What the service relies on when it calls [addCredit]: an amount that is
    not negative is added to the receiver's credit. *)
Definition adds_credit (lib : Transport) : Prop :=
  forall c n : Z, 0 <= n -> rhea_addCredit lib c n = c + n.

(** [this.moduleRef.get<Connection>(token, { strict: false })] *)
Definition moduleRef_get (svc : Service) (token : string) : JsError + option Live :=
  match moduleRef svc !! token with
  | Some provider => inr provider
  | None => inl (UnknownElement token)
  end.

Definition sender_on (e : SenderEvents) (sender : AwaitableSender) : AwaitableSender :=
  {| sender_name := sender_name sender;
     sender_handlers := sender_handlers sender ++ [e] |}.

Definition receiver_on (e : ReceiverEvents) (receiver : Receiver) : Receiver :=
  {| recv_name := recv_name receiver; credit := credit receiver;
     recv_handlers := recv_handlers receiver ++ [e] |}.

(** [receiver.addCredit(n)] *)
Definition addCredit (lib : Transport) (n : Z) (receiver : Receiver)
    : Receiver * list Effect :=
  ({| recv_name := recv_name receiver;
      credit := rhea_addCredit lib (credit receiver) n;
      recv_handlers := recv_handlers receiver |},
   [AddCredit n]).

(** The four sender handlers only log. *)
Definition on_sender (e : SenderEvents) (sender : AwaitableSender) : list Effect :=
  match e with
  | senderOpen => [Log silly ["Sender opened: " +:+ sender_name sender]]
  | senderClose => [Log warn ["Sender closed: " +:+ sender_name sender]]
  | senderError => [Log error ["Sender error: " +:+ sender_name sender]]
  | senderDraining =>
      [Log silly ["Sender requested to drain its credits by remote peer: "
                  +:+ sender_name sender]]
  end.

Definition createSender (env : Env) (lib : Transport) (svc : Service)
    (options : CreateSenderOptions) : (JsError + AwaitableSender) * Service :=
  let connectionToken :=
    getConnectionToken env
      (match connectionName options with Some n => ArgName n | None => ArgMissing end) in
  match moduleRef_get svc connectionToken with
  | inl thrown => (inl thrown, svc)
  | inr None => (inl TypeError, svc)
  | inr (Some connection) =>
      match rhea_createAwaitableSender lib connection (senderOptions options) with
      | inl rejected => (inl (Foreign rejected), svc)
      | inr sender =>
          (inr (sender_on senderDraining
                  (sender_on senderError
                     (sender_on senderClose
                        (sender_on senderOpen sender)))),
           svc)
      end
  end.

(** The [receiverOpen] handler, with [credits] of the enclosing call. *)
Definition on_receiverOpen (lib : Transport) (credits : Z) (receiver : Receiver)
    : Receiver * list Effect :=
  let opened := Log silly ["Receiver opened: " +:+ recv_name receiver] in
  let currentCredits := credit receiver in
  if decide (currentCredits < credits) then
    let '(receiver', added) := addCredit lib (credits - currentCredits) receiver in
    (receiver',
     opened :: Log silly ["Receiver adding credits: " +:+ recv_name receiver] :: added)
  else (receiver, [opened]).

(** The other receiver handlers only log. *)
Definition on_receiver (lib : Transport) (credits : Z) (e : ReceiverEvents)
    (receiver : Receiver) : Receiver * list Effect :=
  match e with
  | receiverOpen => on_receiverOpen lib credits receiver
  | receiverClose =>
      (receiver, [Log silly ["Receiver closed: " +:+ recv_name receiver]])
  | receiverDrained =>
      (receiver, [Log silly ["Remote peer for receiver drained: " +:+ recv_name receiver]])
  | receiverFlow =>
      (receiver, [Log silly ["Flow event received for receiver: " +:+ recv_name receiver]])
  | settled_ =>
      (receiver, [Log silly ["Message has been settled by remote: " +:+ recv_name receiver]])
  end.

Definition createReceiver (lib : Transport) (svc : Service)
    (options : CreateReceiverOptions)
    : (JsError + Receiver) * Service * list Effect :=
  match moduleRef_get svc (connectionToken options) with
  | inl thrown => (inl thrown, svc, [])
  | inr None => (inl TypeError, svc, [])
  | inr (Some connection) =>
      match rhea_createReceiver lib connection (receiverOptions options) with
      | inl rejected => (inl (Foreign rejected), svc, [])
      | inr attached =>
          let '(receiver, added) := addCredit lib (credits options) attached in
          let receiver :=
            receiver_on settled_
              (receiver_on receiverFlow
                 (receiver_on receiverDrained
                    (receiver_on receiverClose
                       (receiver_on receiverOpen receiver)))) in
          (inr receiver, svc,
           added ++ [Log silly ["Receiver created"; recv_name receiver]])
      end
  end.

(** An event raised on a receiver runs the handler of every registration
    under its name. *)
Fixpoint receiver_deliver_to (hs : list ReceiverEvents) (lib : Transport)
    (credits : Z) (e : ReceiverEvents) (receiver : Receiver)
    : Receiver * list Effect :=
  match hs with
  | [] => (receiver, [])
  | h :: hs' =>
      let '(r1, t1) :=
        if decide (h = e) then on_receiver lib credits e receiver
        else (receiver, []) in
      let '(r2, t2) := receiver_deliver_to hs' lib credits e r1 in
      (r2, t1 ++ t2)
  end.

Definition receiver_raise (lib : Transport) (credits : Z) (e : ReceiverEvents)
    (receiver : Receiver) : Receiver * list Effect :=
  receiver_deliver_to (recv_handlers receiver) lib credits e receiver.

(** What happens on a receiver link after it is attached: the transport
    delivers a message, a delivery is settled, or the transport raises
    [receiverOpen]. *)
Inductive LinkEvent :=
| Delivery
| Disposition
| Confirms.

Record Link := {
  link_receiver : Receiver;
  unsettled : nat;
}.

(** Modelled from the spec: the Dispatcher of section 4.6 and the credit
    accounting of the transport, neither of which is in the sources.  A
    delivery spends one unit of the credit the receiver has granted and is
    possible only while credit is left; it stays unsettled until its
    disposition; after each disposition the Dispatcher replenishes exactly
    one unit with [addCredit(1)].  [Confirms] is handled by the code of
    [createReceiver]: the [receiverOpen] handler. *)
Definition link_step (lib : Transport) (prefetch : Z) (ev : LinkEvent) (l : Link)
    : option Link :=
  let receiver := link_receiver l in
  match ev with
  | Delivery =>
      if decide (0 < credit receiver) then
        Some {| link_receiver :=
                  {| recv_name := recv_name receiver;
                     credit := credit receiver - 1;
                     recv_handlers := recv_handlers receiver |};
                unsettled := S (unsettled l) |}
      else None
  | Disposition =>
      match unsettled l with
      | O => None
      | S rest =>
          Some {| link_receiver := (addCredit lib 1 receiver).1;
                  unsettled := rest |}
      end
  | Confirms =>
      Some {| link_receiver := (receiver_raise lib prefetch receiverOpen receiver).1;
              unsettled := unsettled l |}
  end.

Fixpoint link_run (lib : Transport) (prefetch : Z) (evs : list LinkEvent) (l : Link)
    : option Link :=
  match evs with
  | [] => Some l
  | ev :: evs' =>
      match link_step lib prefetch ev l with
      | Some l' => link_run lib prefetch evs' l'
      | None => None
      end
  end.

(** ** Observations on a list of effects *)

(** The calls of [connection.open()]. *)
Fixpoint opens (t : list Effect) : nat :=
  match t with
  | [] => 0
  | Open :: t' => S (opens t')
  | _ :: t' => opens t'
  end.

(** The names emitted on [AMQPService.eventEmitter], in order. *)
Fixpoint emitted (t : list Effect) : list BusEvent :=
  match t with
  | [] => []
  | Emit e :: t' => e :: emitted t'
  | _ :: t' => emitted t'
  end.

(** The amounts granted with [addCredit], in order. *)
Fixpoint granted (t : list Effect) : list Z :=
  match t with
  | [] => []
  | AddCredit n :: t' => n :: granted t'
  | _ :: t' => granted t'
  end.

(** How often [e] occurs among the events the transport raises. *)
Fixpoint raises (e : ConnectionEvents) (evs : list (ConnectionEvents * EventContext))
    : nat :=
  match evs with
  | [] => 0
  | (e', _) :: evs' => (if decide (e' = e) then 1 else 0) + raises e evs'
  end.

(** The handlers as [createConnection] registers them. *)
Definition installed (s : Runtime) : Prop :=
  rt_handlers s = [connectionOpen; connectionError; disconnected; connectionClose].

(** Every emission of [AMQP_CONNECTION_RECONNECT] in [bus] has an emission
    of [AMQP_CONNECTION_DISCONNECTED] before it. *)
Fixpoint reconnect_follows_disconnect (seen : bool) (bus : list BusEvent) : bool :=
  match bus with
  | [] => true
  | AMQP_CONNECTION_DISCONNECTED :: bus' => reconnect_follows_disconnect true bus'
  | AMQP_CONNECTION_RECONNECT :: bus' => seen && reconnect_follows_disconnect seen bus'
  end.

(** Every call of [connection.open()] is refused and leaves the connection
    closed. *)
Definition always_refused (env : Env) : Prop :=
  forall k, open_after (open_outcome env k) = false /\
            exists reason, settled (open_outcome env k) = Rejected reason.

(** What delivering the events [evs] to the installed handlers comes to:
    one pending timeout of 1000 ms for each [connectionClose], one emission
    of [AMQP_CONNECTION_DISCONNECTED] for each [disconnected], no call of
    [connection.open()], the connection untouched. *)
Definition delivered (evs : list (ConnectionEvents * EventContext)) (s : Runtime)
    (r : unit * Runtime * list Effect) : Prop :=
  rt_open (final r) = rt_open s /\
  rt_opens (final r) = rt_opens s /\
  rt_handlers (final r) = rt_handlers s /\
  rt_listeners (final r) = rt_listeners s /\
  rt_timers (final r) = rt_timers s ++ replicate (raises connectionClose evs) 1000 /\
  opens (effects r) = 0%nat /\
  emitted (effects r) =
    replicate (raises disconnected evs) AMQP_CONNECTION_DISCONNECTED.

(** What one [await connection.open()] comes to when the transport decides
    it as [o]: one call, settled as [o] says, the events raised meanwhile
    delivered. *)
Definition attempted (o : OpenOutcome) (s : Runtime)
    (r : Settled * Runtime * list Effect) : Prop :=
  result r = settled o /\
  rt_open (final r) = open_after o /\
  rt_opens (final r) = S (rt_opens s) /\
  rt_handlers (final r) = rt_handlers s /\
  rt_listeners (final r) = rt_listeners s /\
  rt_timers (final r) =
    rt_timers s ++ replicate (raises connectionClose (raised o)) 1000 /\
  opens (effects r) = 1%nat /\
  emitted (effects r) =
    replicate (raises disconnected (raised o)) AMQP_CONNECTION_DISCONNECTED.

(** What the [then]/[catch] of the timeout body emits on the event emitter. *)
Definition announced (o : OpenOutcome) : list BusEvent :=
  match settled o with
  | Resolved => [AMQP_CONNECTION_RECONNECT]
  | Rejected _ => []
  end.

(** What one run of the timeout body comes to when the transport decides
    its [connection.open()] as [o]. *)
Definition reopened (o : OpenOutcome) (s : Runtime)
    (r : unit * Runtime * list Effect) : Prop :=
  rt_open (final r) = open_after o /\
  rt_opens (final r) = S (rt_opens s) /\
  rt_handlers (final r) = rt_handlers s /\
  rt_listeners (final r) = rt_listeners s /\
  rt_timers (final r) =
    rt_timers s ++ replicate (raises connectionClose (raised o)) 1000 /\
  opens (effects r) = 1%nat /\
  emitted (effects r) =
    AMQP_CONNECTION_DISCONNECTED ::
    replicate (raises disconnected (raised o)) AMQP_CONNECTION_DISCONNECTED ++
    announced o.

(** The connection with other timeouts pending. *)
Definition with_timers (pending : list Z) (s : Runtime) : Runtime :=
  {| rt_open := rt_open s; rt_opens := rt_opens s; rt_handlers := rt_handlers s;
     rt_timers := pending; rt_listeners := rt_listeners s |}.

(** The connection of a fresh process once [createConnection] has
    registered its handlers, before the first [connection.open()]. *)
Definition registered (listeners : BusEvent -> nat) : Runtime :=
  {| rt_open := false; rt_opens := 0;
     rt_handlers := [connectionOpen; connectionError; disconnected; connectionClose];
     rt_timers := []; rt_listeners := listeners |}.


(** The registrations [createSender] adds. *)
Definition with_sender_handlers (sender : AwaitableSender) : AwaitableSender :=
  sender_on senderDraining
    (sender_on senderError (sender_on senderClose (sender_on senderOpen sender))).

(** A link as [createReceiver] hands it over: nothing delivered yet. *)
Definition attached_link (receiver : Receiver) : Link :=
  {| link_receiver := receiver; unsettled := 0 |}.

(** The receiver listens to [receiverOpen] once. *)
Definition confirms_once (receiver : Receiver) : Prop :=
  recv_handlers receiver =
    [receiverOpen; receiverClose; receiverDrained; receiverFlow; settled_].

(** What the receiver side relies on when it attaches with manual credit:
    a link the transport has just attached holds no credit. *)
Definition attaches_without_credit (lib : Transport) : Prop :=
  forall (connection : Live) (o : LinkOptions) (receiver : Receiver),
    rhea_createReceiver lib connection o = inr receiver -> credit receiver = 0.

(** [r] is an [Error] made by the service itself. *)
Definition is_Error {A} (r : JsError + A) : bool :=
  match r with
  | inl (Error _) => true
  | _ => false
  end.

(** [AMQP_CONNECTION_RECONNECT] is among the names emitted in [t]. *)
Definition reconnected (t : list Effect) : Prop :=
  AMQP_CONNECTION_RECONNECT ∈ emitted t.

(** How often [AMQP_CONNECTION_DISCONNECTED] was emitted. *)
Fixpoint disconnects (bus : list BusEvent) : nat :=
  match bus with
  | [] => 0
  | AMQP_CONNECTION_DISCONNECTED :: bus' => S (disconnects bus')
  | AMQP_CONNECTION_RECONNECT :: bus' => disconnects bus'
  end.

(** How often the transport raises [disconnected] between turns. *)
Fixpoint reported (sts : list Stimulus) : nat :=
  match sts with
  | [] => 0
  | Raises disconnected _ :: sts' => S (reported sts')
  | _ :: sts' => reported sts'
  end.

(** How often the transport raises [disconnected] while the [n] calls of
    [connection.open()] from call [from] on are pending. *)
Fixpoint reported_during (env : Env) (from n : nat) : nat :=
  match n with
  | O => 0
  | S n' =>
      (raises disconnected (raised (open_outcome env from)) +
       reported_during env (S from) n')%nat
  end.

(** How often the transport raises [receiverOpen] among the events of a
    link. *)
Fixpoint confirmations (evs : list LinkEvent) : nat :=
  match evs with
  | [] => 0
  | Confirms :: evs' => S (confirmations evs')
  | _ :: evs' => confirmations evs'
  end.

(** ** Sample collaborators, for the concrete runs below *)

Definition sample_token (a : TokenArg) : string :=
  match a with
  | ArgMissing => "default"
  | ArgName n => n
  | ArgOptions o => default "default" (name o)
  end.

(** No listener on the event emitter, and one listener on each name. *)
Definition quiet : BusEvent -> nat := fun _ => 0%nat.
Definition listening : BusEvent -> nat := fun _ => 1%nat.

(** A refusal that the transport reports with a [disconnected] event: the
    broker cannot be reached. *)
Definition unreachable : OpenOutcome :=
  {| settled := Rejected "ECONNREFUSED"; open_after := false;
     raised := [(disconnected,
                 {| ctx_error := Some "ECONNREFUSED"; ctx_connection_id := "default" |})] |}.

Definition acceptance : OpenOutcome :=
  {| settled := Resolved; open_after := true; raised := [] |}.

(** A broker that can never be reached. *)
Definition refusing : Env :=
  {| getConnectionToken := sample_token;
     parseURL := fun _ => inr no_options;
     open_outcome := fun _ => unreachable |}.

(** A broker that cannot be reached at the first call and accepts from the
    second on. *)
Definition recovering : Env :=
  {| getConnectionToken := sample_token;
     parseURL := fun _ => inr no_options;
     open_outcome := fun k => match k with O => unreachable | S _ => acceptance end |}.

(** Options with nothing set, and options with only [reconnect_limit]. *)
Definition plain : AMQPModuleOptions :=
  {| name := None; connectionUri := None; connectionOptions := None |}.

Definition limited (limit : Z) : AMQPModuleOptions :=
  {| name := None; connectionUri := None;
     connectionOptions :=
       Some {| initial_reconnect_delay := None; reconnect_limit := Some limit;
               transport := ∅ |} |}.

(** Options with only [initial_reconnect_delay], shorter than the 1000 ms
    of the [connectionClose] timeout. *)
Definition impatient : AMQPModuleOptions :=
  {| name := None; connectionUri := None;
     connectionOptions :=
       Some {| initial_reconnect_delay := Some 100; reconnect_limit := None;
               transport := ∅ |} |}.

(** The context of a close forced by the peer. *)
Definition peer_close : EventContext :=
  {| ctx_error := Some "amqp:connection:forced"; ctx_connection_id := "default" |}.

(** A refusal that the transport reports with a [connectionClose] event. *)
Definition forced_close : OpenOutcome :=
  {| settled := Rejected "amqp:connection:forced"; open_after := false;
     raised := [(connectionClose, peer_close)] |}.

(** A broker that accepts the first call and cannot be reached afterwards. *)
Definition dropped : Env :=
  {| getConnectionToken := sample_token;
     parseURL := fun _ => inr no_options;
     open_outcome := fun k => match k with O => acceptance | S _ => unreachable end |}.

(** A broker that accepts every call. *)
Definition accepting : Env :=
  {| getConnectionToken := sample_token;
     parseURL := fun _ => inr no_options;
     open_outcome := fun _ => acceptance |}.

(** A broker that closes the first connection attempt and accepts from the
    second call on. *)
Definition closed_once : Env :=
  {| getConnectionToken := sample_token;
     parseURL := fun _ => inr no_options;
     open_outcome := fun k => match k with O => forced_close | S _ => acceptance end |}.

(** The same, every refusal being reported with a [connectionClose]. *)
Definition closing : Env :=
  {| getConnectionToken := sample_token;
     parseURL := fun _ => inr no_options;
     open_outcome := fun k => match k with O => acceptance | S _ => forced_close end |}.

(** The connection [createConnection] leaves with default options and one
    listener per name on the event emitter. *)
Definition established (env : Env) : Runtime :=
  final (createConnection env (Some plain) (boot listening)).

(** A transport for the links: it attaches to an open connection only, a
    fresh receiver holds no credit, and [addCredit] ignores amounts that are
    not positive. *)
Definition rhea : Transport :=
  {| rhea_createAwaitableSender := fun live o =>
       if live_open live
       then inr {| sender_name := link_name o; sender_handlers := [] |}
       else inl "connection is not open";
     rhea_createReceiver := fun live o =>
       if live_open live
       then inr {| recv_name := link_name o; credit := 0; recv_handlers := [] |}
       else inl "connection is not open";
     rhea_addCredit := fun c n => if decide (0 < n) then c + n else c |}.

Definition live (open : bool) : Live :=
  {| live_connection := {| conn_options := no_options |}; live_open := open |}.

(** A container holding one connection under the default token, open or
    not. *)
Definition holding (open : bool) : Service :=
  {| moduleRef := {[ "default" := Some (live open) ]} |}.

Definition to_queue : CreateSenderOptions :=
  {| connectionName := None;
     senderOptions := {| link_name := "demo1"; link_address := "demo1" |} |}.

Definition from_queue (prefetch : Z) : CreateReceiverOptions :=
  {| connectionToken := "default"; credits := prefetch;
     receiverOptions := {| link_name := "demo2"; link_address := "demo2" |} |}.

(** The receiver [createReceiver] returns for [from_queue prefetch] on the
    sample transport. *)
Definition demo_receiver (prefetch : Z) : Receiver :=
  {| recv_name := "demo2"; credit := prefetch;
     recv_handlers :=
       [receiverOpen; receiverClose; receiverDrained; receiverFlow; settled_] |}.

(** ** Further observations *)

(** The delays [createConnection] sleeps, in order. *)
Fixpoint sleeps (t : list Effect) : list Z :=
  match t with
  | [] => []
  | Sleep ms :: t' => ms :: sleeps t'
  | _ :: t' => sleeps t'
  end.

(** How often the transport raises [connectionClose] between turns. *)
Fixpoint closes (sts : list Stimulus) : nat :=
  match sts with
  | [] => 0
  | Raises connectionClose _ :: sts' => S (closes sts')
  | _ :: sts' => closes sts'
  end.

(** How often the transport raises [connectionClose] while the [n] calls of
    [connection.open()] from call [from] on are pending. *)
Fixpoint closes_during (env : Env) (from n : nat) : nat :=
  match n with
  | O => 0
  | S n' =>
      (raises connectionClose (raised (open_outcome env from)) +
       closes_during env (S from) n')%nat
  end.

(** What [createConnection] itself adds to the emissions when it returns
    [returned]. *)
Definition reconnect_if_undefined (returned : JsError + option Connection)
    : list BusEvent :=
  match returned with
  | inr None => [AMQP_CONNECTION_RECONNECT]
  | _ => []
  end.

(** ** Further sample collaborators *)

(** A call that resolves while [isOpen()] still answers false. *)
Definition unconfirmed : OpenOutcome :=
  {| settled := Resolved; open_after := false; raised := [] |}.

(** A broker whose every call resolves unconfirmed. *)
Definition hesitant : Env :=
  {| getConnectionToken := sample_token;
     parseURL := fun _ => inr no_options;
     open_outcome := fun _ => unconfirmed |}.

(** A URI parser that rejects everything, on a broker that accepts. *)
Definition unparsable : Env :=
  {| getConnectionToken := sample_token;
     parseURL := fun _ => inl "Invalid URL";
     open_outcome := fun _ => acceptance |}.

(** Retry settings as a URI could carry them. *)
Definition eager_options : ConnectionOptions :=
  {| initial_reconnect_delay := Some 1; reconnect_limit := Some 10;
     transport := {[ "host" := "broker" ]} |}.

(** A broker that can never be reached, behind a URI parser that finds
    [eager_options] in every URI. *)
Definition refusing_eager : Env :=
  {| getConnectionToken := sample_token;
     parseURL := fun _ => inr eager_options;
     open_outcome := fun _ => unreachable |}.

(** Options with only a connection URI. *)
Definition by_uri (uri : string) : AMQPModuleOptions :=
  {| name := None; connectionUri := Some uri; connectionOptions := None |}.

(** ** [AppService] (src/app.service.ts): the listener on the emitter *)

(** [bindListener], called by the constructor:
    [AMQPService.eventEmitter.on(AMQP_CONNECTION_DISCONNECTED, ...)] adds one
    listener under that name. *)
Definition bindListener (listeners : BusEvent -> nat) : BusEvent -> nat :=
  fun e =>
    match e with
    | AMQP_CONNECTION_DISCONNECTED => S (listeners e)
    | AMQP_CONNECTION_RECONNECT => listeners e
    end.

(** ** [AppService] (src/app.service.ts): the endpoints and the load tests *)

(** What [this.producer.send] resolves with: [status] and [error]. *)
Record SendResult := {
  status : bool;
  send_error : option string;
}.

(** The [SendOptions] object [sendMessageWithOptions] builds. *)
Record SendOptions := {
  send_connectionName : option string;
  group_id : option string;
  correlation_id : option string;
  message_id : option Z;
  message_annotations : gmap string string;
}.

(** The message bodies of the service: [{ timestamp }] and
    [{ index, timestamp }]. *)
Record SimpleMessage := {
  index : option Z;
  timestamp : string;
}.

(** How the promise of one [this.producer.send] settles. *)
Inductive Settlement :=
| Settles (result : SendResult)
| Throws (reason : string).

(** What [AppService] takes from outside: the producer, the clock and the
    random source.  [random k] is [Math.floor(Math.random() * 100)] at the
    [k]-th call, an integer from 0 to 99 since [Math.random()] is at least 0
    and below 1. *)
Record World := {
  send : string -> SimpleMessage -> option SendOptions -> Settlement;
  now : nat -> Z;                      (* the k-th new Date(), in ms *)
  toISOString : Z -> string;
  random : nat -> Z;
}.

(** How often the clock and the random source have been read. *)
Record Reads := {
  dates : nat;
  draws : nat;
}.

Inductive AppEffect :=
| Sends (topic : string) (body : SimpleMessage) (options : option SendOptions)
| Info (line : string)                (* this.logger.info *)
| Failure (line : string).            (* this.logger.error *)

Inductive AppError :=
| RangeError                          (* Array(count): invalid array length *)
| SendRejected (reason : string).     (* a rejected this.producer.send *)

Definition next_date (c : Reads) : Reads := {| dates := S (dates c); draws := draws c |}.
Definition next_draw (c : Reads) : Reads := {| dates := dates c; draws := S (draws c) |}.

(** [list[i]] of JavaScript: [undefined] off the list. *)
Definition js_nth {A} (l : list A) (i : Z) : option A :=
  if decide (0 <= i) then l !! Z.to_nat i else None.

(** [getRandomGroupId]: [%] is the remainder that takes the sign of the
    dividend. *)
Definition getRandomGroupId (w : World) (c : Reads) : option string * Reads :=
  let index := Z.rem (random w (draws c)) 2 in
  let groups := ["GroupA"; "GroupB"] in
  (js_nth groups index, next_draw c).

(** [result.status ? 'success' : 'failed'] *)
Definition status_word (result : SendResult) : string :=
  if status result then "success" else "failed".

Definition sendMessage (w : World) (c : Reads)
    : (AppError + string) * Reads * list AppEffect :=
  let body := {| index := None; timestamp := toISOString w (now w (dates c)) |} in
  match send w "demo1" body None with
  | Throws reason => (inl (SendRejected reason), next_date c, [Sends "demo1" body None])
  | Settles result =>
      (inr ("Send to demo1 of default connection: " +:+ status_word result),
       next_date c, [Sends "demo1" body None])
  end.

Definition sendMessageWithOptions (w : World) (c : Reads)
    : (AppError + string) * Reads * list AppEffect :=
  let messageId := now w (dates c) in
  let '(groupId, c1) := getRandomGroupId w (next_date c) in
  let options :=
    {| send_connectionName := Some "custom";
       group_id := groupId;
       correlation_id := Some ("GROUP:" +:+ default "undefined" groupId);
       message_id := Some messageId;
       message_annotations := {[ "JMSMessageID" := "A" ]} |} in
  let body := {| index := None; timestamp := toISOString w (now w (dates c1)) |} in
  match send w "demo2" body (Some options) with
  | Throws reason =>
      (inl (SendRejected reason), next_date c1, [Sends "demo2" body (Some options)])
  | Settles result =>
      (inr ("Send to demo2 of custom connection: " +:+ status_word result),
       next_date c1, [Sends "demo2" body (Some options)])
  end.

Definition sendError (w : World) (c : Reads)
    : (AppError + string) * Reads * list AppEffect :=
  let message := {| index := None; timestamp := toISOString w (now w (dates c)) |} in
  match send w "demo3" message None with
  | Throws reason => (inl (SendRejected reason), next_date c, [Sends "demo3" message None])
  | Settles result =>
      (inr ("Send to demo3 of default connection: " +:+ status_word result),
       next_date c, [Sends "demo3" message None])
  end.

(** [Array.from(Array(count).keys())] for an integer [count]: the indices
    from 0, or the [RangeError] of an invalid array length. *)
Definition array_keys (count : Z) : AppError + list Z :=
  if decide (0 <= count < 2 ^ 32) then inr (seqZ 0 count) else inl RangeError.

(** The line the load tests log for the result of send [i]:
    [if (result.error) logger.error(result.error) else logger.info(...)]. *)
Definition report (topic : string) (i : Z) (result : SendResult) : AppEffect :=
  match truthy (send_error result) with
  | detail :: _ => Failure detail
  | [] => Info ("Send to " +:+ topic +:+ "[" +:+ pretty i +:+ "]")
  end.

(** The [for await] of [loadTestA]: each send is awaited, and its line
    logged, before the next body is built. *)
Fixpoint loadTestA_loop (w : World) (topic : string) (keys : list Z) (c : Reads)
    : (AppError + unit) * Reads * list AppEffect :=
  match keys with
  | [] => (inr tt, c, [])
  | i :: rest =>
      let body := {| index := Some i; timestamp := toISOString w (now w (dates c)) |} in
      match send w topic body None with
      | Throws reason =>
          (inl (SendRejected reason), next_date c, [Sends topic body None])
      | Settles result =>
          let '(r, c', t) := loadTestA_loop w topic rest (next_date c) in
          (r, c', Sends topic body None :: report topic i result :: t)
      end
  end.

Definition loadTestA (w : World) (count : Z) (c : Reads)
    : (AppError + unit) * Reads * list AppEffect :=
  match array_keys count with
  | inl thrown => (inl thrown, c, [])
  | inr keys => loadTestA_loop w "Topic:LoadTestA" keys c
  end.

(** A send of [loadTestB] whose promise nobody has awaited to the end yet. *)
Record Pending := {
  pending_index : Z;
  pending_body : SimpleMessage;
}.

(** The [forEach] of [loadTestB]: every callback runs up to its [await], so
    every send is made before any result is looked at. *)
Fixpoint loadTestB_each (w : World) (topic : string) (keys : list Z) (c : Reads)
    : list Pending * Reads * list AppEffect :=
  match keys with
  | [] => ([], c, [])
  | i :: rest =>
      let body := {| index := Some i; timestamp := toISOString w (now w (dates c)) |} in
      let '(ps, c', t) := loadTestB_each w topic rest (next_date c) in
      ({| pending_index := i; pending_body := body |} :: ps, c',
       Sends topic body None :: t)
  end.

(** [loadTestB] up to the point where its own promise resolves, with the
    callbacks it leaves behind. *)
Definition loadTestB (w : World) (count : Z) (c : Reads)
    : (AppError + list Pending) * Reads * list AppEffect :=
  match array_keys count with
  | inl thrown => (inl thrown, c, [])
  | inr keys =>
      let '(ps, c', t) := loadTestB_each w "Topic:LoadTestB" keys c in
      (inr ps, c', t)
  end.

(** The indices of the bodies sent, in order. *)
Fixpoint sent (t : list AppEffect) : list (option Z) :=
  match t with
  | [] => []
  | Sends _ body _ :: t' => index body :: sent t'
  | _ :: t' => sent t'
  end.

(** The lines logged, in order. *)
Fixpoint lines (t : list AppEffect) : list AppEffect :=
  match t with
  | [] => []
  | Sends _ _ _ :: t' => lines t'
  | e :: t' => e :: lines t'
  end.

(** Sends and lines alternate, starting with a send: every send has its
    line logged before the next one is made. *)
Fixpoint alternates (t : list AppEffect) : bool :=
  match t with
  | [] => true
  | Sends _ _ _ :: (Info _ | Failure _) :: t' => alternates t'
  | _ => false
  end.

(** ** The entry point (src/main.ts) *)

(** [process.env.APP_PORT || 3000]: the variable as it is, or the number. *)
Inductive Port :=
| EnvPort (value : string)
| DefaultPort (number : Z).

(** What the process finds when it starts: the variable, how
    [NestFactory.create] settles and how [app.listen] does ([Some message]
    is a rejection with that [error.message]). *)
Record Startup := {
  APP_PORT : option string;
  create_fails : option string;
  listen_fails : Port -> option string;
}.

Inductive MainEffect :=
| Creates                             (* NestFactory.create(AppModule, ...) *)
| Listens (port : Port)               (* app.listen(port) *)
| LogsError (line : string)           (* logger.error *)
| Exits (code : Z).                   (* process.exit *)

Definition port_of (p : Startup) : Port :=
  match APP_PORT p with
  | Some value => if decide (value = "") then DefaultPort 3000 else EnvPort value
  | None => DefaultPort 3000
  end.

Definition bootstrap (p : Startup) : (string + unit) * list MainEffect :=
  match create_fails p with
  | Some message => (inl message, [Creates])
  | None =>
      let port := port_of p in
      match listen_fails p port with
      | Some message => (inl message, [Creates; Listens port])
      | None => (inr tt, [Creates; Listens port])
      end
  end.

(** The immediately invoked function of the module and its [catch]. *)
Definition main (p : Startup) : list MainEffect :=
  let '(r, t) := bootstrap p in
  match r with
  | inl message =>
      t ++ [LogsError ("Nest application error: " +:+ message); Exits 1]
  | inr _ => t
  end.

(** ** Sample worlds *)

(** A producer whose broker accepts everything, a clock that advances one
    second per reading, and a random source that alternates. *)
Definition steady : World :=
  {| send := fun _ _ _ => Settles {| status := true; send_error := None |};
     now := fun k => 1000 * Z.of_nat k;
     toISOString := pretty;
     random := fun k => Z.of_nat k |}.

(** The same, the producer rejecting the message with index 2. *)
Definition failing_third : World :=
  {| send := fun _ body _ =>
       match index body with
       | Some 2 => Throws "connection lost"
       | _ => Settles {| status := true; send_error := None |}
       end;
     now := fun k => 1000 * Z.of_nat k;
     toISOString := pretty;
     random := fun k => Z.of_nat k |}.

Definition unread : Reads := {| dates := 0; draws := 0 |}.

(** * Properties *)

(** ** Effects of composed actions *)

Lemma opens_app (t1 t2 : list Effect) : opens (t1 ++ t2) = (opens t1 + opens t2)%nat.
Proof.
  induction t1 as [|e t1 IH]; [reflexivity|].
  destruct e; simpl; rewrite IH; reflexivity.
Qed.

Lemma emitted_app (t1 t2 : list Effect) : emitted (t1 ++ t2) = emitted t1 ++ emitted t2.
Proof.
  induction t1 as [|e t1 IH]; [reflexivity|].
  destruct e; simpl; rewrite IH; reflexivity.
Qed.

Lemma granted_app (t1 t2 : list Effect) : granted (t1 ++ t2) = granted t1 ++ granted t2.
Proof.
  induction t1 as [|e t1 IH]; [reflexivity|].
  destruct e; simpl; rewrite IH; reflexivity.
Qed.

Lemma bind_run {A B} (m : Act A) (f : A -> Act B) (s : Runtime) :
  bind m f s =
  (result (f (result (m s)) (final (m s))),
   final (f (result (m s)) (final (m s))),
   effects (m s) ++ effects (f (result (m s)) (final (m s)))).
Proof.
  unfold bind, result, final, effects.
  destruct (m s) as [[a s1] t1]; simpl.
  destruct (f a s1) as [[b s2] t2]; reflexivity.
Qed.

(** ** The handlers *)

Lemma handler_delivered (token : string) (e : ConnectionEvents)
    (context : EventContext) (s : Runtime) :
  delivered [(e, context)] s (handler token e context s).
Proof.
  unfold delivered.
  destruct e; cbn.
  - rewrite app_nil_r. repeat split; reflexivity.
  - rewrite app_nil_r. repeat split; reflexivity.
  - rewrite app_nil_r.
    destruct (bool_decide (0 < rt_listeners s AMQP_CONNECTION_DISCONNECTED)%nat);
      repeat split; reflexivity.
  - unfold on_connectionClose, bind, log, perform, setTimeout.
    destruct (truthy (ctx_error context)); repeat split; reflexivity.
Qed.

Lemma raises_app (e : ConnectionEvents) (evs1 evs2 : list (ConnectionEvents * EventContext)) :
  raises e (evs1 ++ evs2) = (raises e evs1 + raises e evs2)%nat.
Proof.
  induction evs1 as [|[e' c] evs1 IH]; [reflexivity|].
  simpl. rewrite IH. lia.
Qed.

Lemma delivered_nil (s : Runtime) : delivered [] s (ret tt s).
Proof. unfold delivered; cbn. rewrite app_nil_r. repeat split; reflexivity. Qed.

(** Delivering one batch after another. *)
Lemma delivered_bind (evs1 evs2 : list (ConnectionEvents * EventContext))
    (m1 m2 : Act unit) (s : Runtime) :
  delivered evs1 s (m1 s) ->
  (forall s1, rt_handlers s1 = rt_handlers s -> delivered evs2 s1 (m2 s1)) ->
  delivered (evs1 ++ evs2) s ((m1 ;;; m2) s).
Proof.
  intros H1 H2. rewrite bind_run.
  destruct H1 as (Ho & Hn & Hh & Hl & Ht & Hc & He).
  specialize (H2 (final (m1 s)) Hh).
  destruct H2 as (Ho' & Hn' & Hh' & Hl' & Ht' & Hc' & He').
  unfold delivered.
  unfold final, effects in *; cbn [fst snd] in *.
  rewrite !raises_app, !replicate_add, opens_app, emitted_app.
  rewrite Ho', Hn', Hh', Hl', Ht', Hc', He', Ho, Hn, Hh, Hl, Ht, Hc, He.
  rewrite app_assoc. repeat split; reflexivity.
Qed.

(** With the handlers of [createConnection] installed, an event runs its
    handler, once. *)
Lemma deliver_installed (token : string) (e : ConnectionEvents)
    (context : EventContext) (s : Runtime) :
  installed s -> deliver token e context s = handler token e context s.
Proof.
  unfold installed, deliver. intros ->.
  destruct e; cbn [deliver_to];
    repeat (destruct (decide _) as [?|?]; try congruence);
    unfold bind, ret;
    match goal with |- context [handler ?t ?e ?c ?s] =>
      destruct (handler t e c s) as [[[] s1] t1] end;
    cbn; rewrite ?app_nil_r; reflexivity.
Qed.

Lemma deliver_delivered (token : string) (e : ConnectionEvents)
    (context : EventContext) (s : Runtime) :
  installed s -> delivered [(e, context)] s (deliver token e context s).
Proof.
  intros H. rewrite (deliver_installed _ _ _ _ H). apply handler_delivered.
Qed.

Lemma deliver_all_delivered (token : string)
    (evs : list (ConnectionEvents * EventContext)) (s : Runtime) :
  installed s -> delivered evs s (deliver_all token evs s).
Proof.
  revert s. induction evs as [|[e context] evs IH]; intros s H.
  - apply delivered_nil.
  - change ((e, context) :: evs) with ([(e, context)] ++ evs).
    cbn [deliver_all].
    apply delivered_bind.
    + apply deliver_delivered, H.
    + intros s1 Hs1. apply IH. unfold installed in *. congruence.
Qed.

(** ** One call of [connection.open()] *)

Lemma connection_open_attempted (env : Env) (token : string) (s : Runtime) :
  installed s ->
  attempted (open_outcome env (rt_opens s)) s (connection_open env token s).
Proof.
  intros H. unfold connection_open.
  set (o := open_outcome env (rt_opens s)).
  set (s0 := {| rt_open := rt_open s; rt_opens := S (rt_opens s);
                rt_handlers := rt_handlers s; rt_timers := rt_timers s;
                rt_listeners := rt_listeners s |}).
  assert (H0 : installed s0) by exact H.
  destruct (deliver_all_delivered token (raised o) s0 H0)
    as (Ho & Hn & Hh & Hl & Ht & Hc & He).
  destruct (deliver_all token (raised o) s0) as [[[] s1] t1].
  unfold attempted, result, final, effects in *; cbn [fst snd] in *.
  cbn [opens emitted rt_open rt_opens rt_handlers rt_listeners rt_timers].
  rewrite Hn, Hh, Hl, Ht, Hc, He. repeat split; reflexivity.
Qed.

(** ** The timeout body *)

Lemma on_disconnected_run (token : string) (context : EventContext) (s : Runtime) :
  on_disconnected token context s =
  (tt, s,
   Log warn (("Connection closed by peer: " +:+ token) :: truthy (ctx_error context)) ::
   Emit AMQP_CONNECTION_DISCONNECTED ::
   (if bool_decide (0 < rt_listeners s AMQP_CONNECTION_DISCONNECTED)%nat then []
    else [Log warn ["disconnect event not emitted"]])).
Proof.
  unfold on_disconnected, bind, log, perform, emit, ret.
  destruct (bool_decide _); reflexivity.
Qed.

Lemma reopen_run (env : Env) (token : string) (s : Runtime) :
  installed s ->
  reopen env token s =
  (tt, final (connection_open env token s),
   Dispatch disconnected ::
   effects (on_disconnected token no_context s) ++
   effects (connection_open env token s) ++
   match result (connection_open env token s) with
   | Resolved =>
       Log silly ["connection successfully reopened"] ::
       Emit AMQP_CONNECTION_RECONNECT ::
       (if bool_decide
             (0 < rt_listeners (final (connection_open env token s))
                    AMQP_CONNECTION_RECONNECT)%nat
        then [] else [Log warn ["reconnect event not emitted"]])
   | Rejected reason =>
       [Log error ["reopening connection failed with error: " +:+ reason; reason]]
   end ++ [ClearTimeout]).
Proof.
  intros H. unfold reopen.
  rewrite bind_run. cbn [perform result final effects fst snd].
  rewrite bind_run, (deliver_installed _ _ _ _ H).
  cbn [handler]. rewrite on_disconnected_run.
  cbn [result final effects fst snd].
  rewrite bind_run.
  destruct (connection_open env token s) as [[r s1] t1].
  cbn [result final effects fst snd].
  destruct r as [|reason].
  - unfold bind, log, perform, emit, ret.
    destruct (bool_decide _); cbn; rewrite <- ?app_assoc; reflexivity.
  - unfold bind, log, perform, ret. cbn. rewrite <- ?app_assoc. reflexivity.
Qed.

Lemma reopen_reopened (env : Env) (token : string) (s : Runtime) :
  installed s ->
  reopened (open_outcome env (rt_opens s)) s (reopen env token s).
Proof.
  intros H. rewrite (reopen_run _ _ _ H), on_disconnected_run.
  destruct (connection_open_attempted env token s H)
    as (Hr & Ho & Hn & Hh & Hl & Ht & Hc & He).
  unfold reopened, announced.
  cbn [result final effects fst snd].
  rewrite <- Hr.
  repeat split; try assumption.
  - cbn [opens]. rewrite !opens_app, Hc.
    destruct (bool_decide _), (result (connection_open env token s));
      try destruct (bool_decide _); reflexivity.
  - cbn [emitted]. rewrite !emitted_app, He.
    destruct (bool_decide _), (result (connection_open env token s));
      try destruct (bool_decide _); cbn; rewrite ?app_nil_r; reflexivity.
Qed.

(** A fired timeout runs the timeout body on the connection as it is. *)
Lemma fire_run (env : Env) (token : string) (s : Runtime) (d : Z) (pending : list Z) :
  rt_timers s = d :: pending ->
  fire env token s = reopen env token (with_timers pending s).
Proof. intros Ht. unfold fire. rewrite Ht. reflexivity. Qed.

Lemma fire_reopened (env : Env) (token : string) (s : Runtime) (d : Z) (pending : list Z) :
  installed s ->
  rt_timers s = d :: pending ->
  reopened (open_outcome env (rt_opens s)) (with_timers pending s) (fire env token s).
Proof.
  intros H Ht. rewrite (fire_run _ _ _ _ _ Ht).
  apply (reopen_reopened env token (with_timers pending s)). exact H.
Qed.

Lemma on_connectionClose_run (token : string) (context : EventContext) (s : Runtime) :
  on_connectionClose token context s =
  (tt, with_timers (rt_timers s ++ [1000]) s,
   [Log (match truthy (ctx_error context) with [] => warn | _ => error end)
        ["Connection closed: " +:+ token];
    SetTimeout 1000]).
Proof.
  unfold on_connectionClose, bind, log, perform, setTimeout, with_timers.
  destruct (truthy (ctx_error context)); reflexivity.
Qed.

Lemma connection_open_shape (env : Env) (token : string) (s : Runtime) :
  installed s ->
  exists during,
    effects (connection_open env token s) = Open :: during /\
    opens during = 0%nat.
Proof.
  intros H.
  destruct (connection_open_attempted env token s H)
    as (_ & _ & _ & _ & _ & _ & Hc & _).
  unfold connection_open in *.
  destruct (deliver_all token _ _) as [[[] s1] t1].
  cbn [effects snd opens] in *.
  exists t1. split; [reflexivity | lia].
Qed.

(** The order inside one run of the timeout body: the dispatch, whose
    handler emits once, then the one call of [connection.open()]. *)
Lemma reopen_shape (env : Env) (token : string) (s : Runtime) :
  installed s ->
  exists before rest,
    effects (reopen env token s) = Dispatch disconnected :: before ++ Open :: rest /\
    emitted before = [AMQP_CONNECTION_DISCONNECTED] /\
    opens before = 0%nat /\
    opens rest = 0%nat.
Proof.
  intros H. rewrite (reopen_run _ _ _ H), on_disconnected_run.
  destruct (connection_open_shape env token s H) as (during & -> & Hd).
  cbn [effects snd].
  match goal with
  | |- context [Dispatch disconnected :: ?b ++ (Open :: ?d) ++ ?r] =>
      exists b, (d ++ r)
  end.
  split; [|split; [|split]].
  - reflexivity.
  - destruct (bool_decide _); reflexivity.
  - destruct (bool_decide _); reflexivity.
  - rewrite !opens_app, Hd.
    destruct (result (connection_open env token s));
      try destruct (bool_decide _); reflexivity.
Qed.

(** ** Events on an established connection *)

(** The turn of one [disconnected] event, with whatever context: the
    emissions of that turn are [AMQP_CONNECTION_DISCONNECTED] once, no
    [connection.open()] is called and the connection is left as it was. *)
Lemma disconnected_turn (env : Env) (token : string)
    (context : EventContext) (s : Runtime) :
  installed s ->
  emitted (effects (step env token (Raises disconnected context) s)) =
    [AMQP_CONNECTION_DISCONNECTED] /\
  opens (effects (step env token (Raises disconnected context) s)) = 0%nat /\
  final (step env token (Raises disconnected context) s) = s.
Proof.
  intros H. cbn [step].
  rewrite (deliver_installed _ _ _ _ H). cbn [handler].
  rewrite on_disconnected_run. cbn [effects final fst snd emitted opens].
  destruct (bool_decide _); repeat split; reflexivity.
Qed.

(** C10. Every [connectionClose] event, whatever its context (with an error
    or without, so also after a clean local close), only logs and leaves one
    more timeout of 1000 ms pending.  When a timeout then fires, its body
    dispatches [disconnected] on the underlying connection, which emits
    [AMQP_CONNECTION_DISCONNECTED], and then calls [connection.open()]
    exactly once. *)
Theorem connectionClose_schedules_one_reopen (env : Env) (token : string)
    (context : EventContext) (s : Runtime) :
  installed s ->
  let r1 := step env token (Raises connectionClose context) s in
  let r2 := step env token TimerFires (final r1) in
  (rt_timers (final r1) = rt_timers s ++ [1000] /\
   opens (effects r1) = 0%nat /\
   emitted (effects r1) = [] /\
   exists lvl,
     effects r1 = [Log lvl ["Connection closed: " +:+ token]; SetTimeout 1000]) /\
  (opens (effects r2) = 1%nat /\
   exists before rest,
     effects r2 = Dispatch disconnected :: before ++ Open :: rest /\
     emitted before = [AMQP_CONNECTION_DISCONNECTED] /\
     opens before = 0%nat /\
     opens rest = 0%nat).
Proof.
  intros H. cbv zeta. cbn [step].
  rewrite (deliver_installed _ _ _ _ H). cbn [handler].
  rewrite on_connectionClose_run. cbn [final effects fst snd].
  split.
  - repeat split. eexists. reflexivity.
  - set (s1 := with_timers (rt_timers s ++ [1000]) s).
    assert (H1 : installed s1) by exact H.
    assert (Ht : exists d pending, rt_timers s1 = d :: pending).
    { cbn. destruct (rt_timers s); cbn; eauto. }
    destruct Ht as (d & pending & Ht).
    destruct (fire_reopened env token s1 d pending H1 Ht)
      as (_ & _ & _ & _ & _ & Hc & _).
    split; [exact Hc|].
    rewrite (fire_run _ _ _ _ _ Ht).
    apply reopen_shape. exact H1.
Qed.

Lemma connectionClose_schedules_one_reopen_witness :
  let r1 := step dropped "default" (Raises connectionClose peer_close)
              (established dropped) in
  let r2 := step dropped "default" TimerFires (final r1) in
  (rt_timers (final r1) = rt_timers (established dropped) ++ [1000] /\
   opens (effects r1) = 0%nat /\
   emitted (effects r1) = [] /\
   exists lvl,
     effects r1 = [Log lvl ["Connection closed: " +:+ "default"]; SetTimeout 1000]) /\
  (opens (effects r2) = 1%nat /\
   exists before rest,
     effects r2 = Dispatch disconnected :: before ++ Open :: rest /\
     emitted before = [AMQP_CONNECTION_DISCONNECTED] /\
     opens before = 0%nat /\
     opens rest = 0%nat).
Proof.
  apply (connectionClose_schedules_one_reopen dropped "default" peer_close
           (established dropped)).
  reflexivity.
Defined.

(** ** [createConnection]: the first open and the retry loop *)

Lemma createConnection_run (env : Env) (opts : AMQPModuleOptions)
    (base : ConnectionOptions) (listeners : BusEvent -> nat) :
  parsed_uri env opts = inr base ->
  createConnection env (Some opts) (boot listeners) =
  let token := getConnectionToken env (ArgOptions opts) in
  let connection := {| conn_options := spread base (connectionOptions opts) |} in
  let r := connection_open env token (registered listeners) in
  match result r with
  | Resolved =>
      (inr (Some connection), final r,
       Log silly ["Connection creating: " +:+ token] :: effects r)
  | Rejected reason =>
      let r2 := retry_loop (reconnect_limit_of opts) (retry_body env opts token)
                  connection 0 (final r) in
      (inr (result r2), final r2,
       Log silly ["Connection creating: " +:+ token] ::
       effects r ++ Log error ["Connection open failed: " +:+ token; reason] ::
       effects r2)
  end.
Proof.
  intros Hp. unfold createConnection. rewrite Hp. cbv zeta.
  unfold bind at 1. cbn [log perform].
  unfold bind at 1. cbn [connection_on].
  unfold bind at 1. cbn [connection_on].
  unfold bind at 1. cbn [connection_on].
  unfold bind at 1. cbn [connection_on].
  cbn [boot rt_open rt_opens rt_handlers rt_timers rt_listeners app].
  fold (registered listeners).
  rewrite bind_run.
  destruct (connection_open env _ (registered listeners)) as [[r s1] t1].
  cbn [result final effects fst snd].
  destruct r as [|reason].
  - cbn. rewrite app_nil_r. reflexivity.
  - unfold bind, log, perform, ret.
    destruct (retry_loop _ _ _ _ _) as [[r2 s2] t2]. cbn.
    rewrite app_nil_r. reflexivity.
Qed.

(** The loop, one turn unfolded. *)
Lemma retry_loop_turn (limit : Z) (body : Act Turn) (connection : Connection)
    (retry : Z) (s : Runtime) :
  retry_loop limit body connection retry s =
  match result (body s) with
  | ReturnsUndefined => (None, final (body s), effects (body s))
  | ReachesCondition =>
      if decide (retry + 1 < limit) then
        if rt_open (final (body s)) then
          (Some connection, final (body s), effects (body s))
        else
          after (effects (body s))
            (retry_loop limit body connection (retry + 1) (final (body s)))
      else (Some connection, final (body s), effects (body s))
  end.
Proof.
  rewrite retry_loop_equation_1.
  destruct (body s) as [[turn s1] t1]. cbn [result final effects fst snd].
  destruct turn; simp retry_loop; [reflexivity|].
  destruct (Z_lt_dec (retry + 1) limit) as [Hlt|Hge];
    destruct (decide (retry + 1 < limit)) as [Hlt'|Hge']; try lia;
    simp retry_loop; [|reflexivity].
  destruct (rt_open s1); simp retry_loop; reflexivity.
Qed.

Lemma retry_body_run (env : Env) (opts : AMQPModuleOptions) (token : string)
    (s : Runtime) :
  retry_body env opts token s =
  let r := connection_open env token s in
  let before := [Log silly ["reopening connection..."];
                 Sleep (reconnect_delay_of opts)] in
  match result r with
  | Resolved =>
      if rt_open (final r) then
        (ReturnsUndefined, final r,
         before ++ effects r ++ [Emit AMQP_CONNECTION_RECONNECT])
      else (ReachesCondition, final r, before ++ effects r)
  | Rejected reason =>
      (ReachesCondition, final r,
       before ++ effects r ++
       [Log error ["Connection reopen failed: " +:+ token; reason]])
  end.
Proof.
  unfold retry_body. cbv zeta.
  unfold bind at 1. cbn [log perform].
  unfold bind at 1. cbn [perform].
  rewrite bind_run.
  destruct (connection_open env token s) as [[r s1] t1].
  cbn [result final effects fst snd].
  destruct r as [|reason].
  - unfold bind, isOpen, emit, ret. destruct (rt_open s1); cbn;
      rewrite ?app_nil_r; reflexivity.
  - unfold bind, log, perform, ret. cbn. reflexivity.
Qed.

(** A refused call inside the loop body: the turn reaches the loop
    condition with the connection closed, after exactly one call. *)
Lemma retry_body_refused (env : Env) (opts : AMQPModuleOptions) (token : string)
    (s : Runtime) :
  always_refused env ->
  installed s ->
  result (retry_body env opts token s) = ReachesCondition /\
  rt_open (final (retry_body env opts token s)) = false /\
  installed (final (retry_body env opts token s)) /\
  opens (effects (retry_body env opts token s)) = 1%nat.
Proof.
  intros Hr H. rewrite retry_body_run. cbv zeta.
  destruct (connection_open_attempted env token s H)
    as (Hres & Ho & _ & Hh & _ & _ & Hc & _).
  destruct (Hr (rt_opens s)) as (Hclosed & reason & Hset).
  rewrite Hres, Hset. cbn [result final effects fst snd].
  rewrite Ho, Hclosed. unfold installed in *. rewrite Hh.
  repeat split; try assumption.
  cbn [app opens]. rewrite opens_app, Hc. reflexivity.
Qed.

(** Against a transport that refuses every call, the loop entered with
    [retry] makes one call per turn until [retry] reaches the limit, at
    least one, and then returns the connection, still closed. *)
Lemma retry_loop_refused (env : Env) (opts : AMQPModuleOptions) (token : string)
    (limit : Z) (connection : Connection) (n : nat) :
  always_refused env ->
  forall (retry : Z) (s : Runtime),
    installed s ->
    Z.to_nat (limit - (retry + 1)) = n ->
    result (retry_loop limit (retry_body env opts token) connection retry s) =
      Some connection /\
    rt_open (final (retry_loop limit (retry_body env opts token) connection retry s)) =
      false /\
    installed (final (retry_loop limit (retry_body env opts token) connection retry s)) /\
    opens (effects (retry_loop limit (retry_body env opts token) connection retry s)) =
      S n.
Proof.
  intros Hr. induction n as [|n IH]; intros retry s H Hn;
    rewrite retry_loop_turn;
    destruct (retry_body_refused env opts token s Hr H) as (Hres & Ho & Hi & Hc);
    rewrite Hres, Ho;
    destruct (decide (retry + 1 < limit)) as [Hlt|Hge]; try lia;
    cbn [result final effects fst snd].
  - repeat split; assumption.
  - destruct (IH (retry + 1) (final (retry_body env opts token s)) Hi)
      as (Hres' & Ho' & Hi' & Hc'); [lia|].
    unfold after, result, final, effects in *. cbn [fst snd].
    rewrite opens_app, Hc, Hc'. repeat split; assumption.
Qed.

(** A first call refused and a second one accepted: the loop body leaves
    through its bare [return;]. *)
Lemma createConnection_recovers (env : Env) (opts : AMQPModuleOptions)
    (base : ConnectionOptions) (listeners : BusEvent -> nat) (reason : string) :
  parsed_uri env opts = inr base ->
  settled (open_outcome env 0) = Rejected reason ->
  settled (open_outcome env 1) = Resolved ->
  open_after (open_outcome env 1) = true ->
  let r := createConnection env (Some opts) (boot listeners) in
  result r = inr None /\
  rt_open (final r) = true /\
  opens (effects r) = 2%nat /\
  emitted (effects r) =
    replicate (raises disconnected (raised (open_outcome env 0)) +
               raises disconnected (raised (open_outcome env 1)))
      AMQP_CONNECTION_DISCONNECTED ++ [AMQP_CONNECTION_RECONNECT].
Proof.
  intros Hp H0 H1 Hopen. cbv zeta.
  rewrite (createConnection_run _ _ _ _ Hp). cbv zeta.
  set (token := getConnectionToken env (ArgOptions opts)).
  assert (Hi : installed (registered listeners)) by reflexivity.
  destruct (connection_open_attempted env token _ Hi)
    as (Hres & _ & Hn & Hh & _ & _ & Hc & He).
  cbn [registered rt_opens] in Hres, Hn, He.
  rewrite Hres, H0. cbv zeta.
  rewrite retry_loop_turn, retry_body_run. cbv zeta.
  set (s1 := final (connection_open env token (registered listeners))) in *.
  assert (Hi1 : installed s1) by (unfold installed; rewrite Hh; reflexivity).
  destruct (connection_open_attempted env token s1 Hi1)
    as (Hres1 & Ho1 & _ & _ & _ & _ & Hc1 & He1).
  rewrite Hn in Hres1, Ho1, He1.
  rewrite Hres1, H1, Ho1, Hopen.
  cbn [result final effects fst snd].
  rewrite Ho1, Hopen.
  repeat split.
  - cbn [opens app]. rewrite !opens_app. cbn [opens app].
    rewrite !opens_app, Hc, Hc1. reflexivity.
  - cbn [emitted app]. rewrite !emitted_app. cbn [emitted app].
    rewrite !emitted_app, He, He1, replicate_add. cbn [emitted].
    rewrite app_assoc. reflexivity.
Qed.

Lemma connection_open_not_reconnected (env : Env) (token : string) (s : Runtime) :
  installed s -> ~ reconnected (effects (connection_open env token s)).
Proof.
  intros H. unfold reconnected.
  destruct (connection_open_attempted env token s H) as (_ & _ & _ & _ & _ & _ & _ & ->).
  intros Hin. apply elem_of_replicate_inv in Hin. discriminate.
Qed.

(** One turn of the loop body: it leaves through the bare [return;] with
    the connection open exactly when it has emitted
    [AMQP_CONNECTION_RECONNECT]. *)
Lemma retry_body_turn (env : Env) (opts : AMQPModuleOptions) (token : string)
    (s : Runtime) :
  installed s ->
  installed (final (retry_body env opts token s)) /\
  ((result (retry_body env opts token s) = ReturnsUndefined /\
    rt_open (final (retry_body env opts token s)) = true /\
    reconnected (effects (retry_body env opts token s))) \/
   (result (retry_body env opts token s) = ReachesCondition /\
    ~ reconnected (effects (retry_body env opts token s)))).
Proof.
  intros H. rewrite retry_body_run. cbv zeta.
  pose proof (connection_open_not_reconnected env token s H) as Hnot.
  destruct (connection_open_attempted env token s H)
    as (_ & _ & _ & Hh & _ & _ & _ & _).
  assert (Hi : installed (final (connection_open env token s)))
    by (unfold installed in *; rewrite Hh; exact H).
  unfold reconnected in *.
  destruct (result (connection_open env token s)) as [|reason].
  - destruct (rt_open (final (connection_open env token s))) eqn:Ho;
      cbn [result final effects fst snd]; (split; [exact Hi|]).
    + left. repeat split; [exact Ho|].
      cbn [app emitted]. rewrite emitted_app. cbn [emitted].
      apply elem_of_app. right. apply list_elem_of_singleton. reflexivity.
    + right. split; [reflexivity|]. exact Hnot.
  - cbn [result final effects fst snd]. split; [exact Hi|].
    right. split; [reflexivity|].
    cbn [app emitted]. rewrite emitted_app. cbn [emitted].
    rewrite app_nil_r. exact Hnot.
Qed.

(** The loop as a whole: it returns [undefined] exactly in the runs in
    which a retry succeeded, and the connection otherwise. *)
Lemma retry_loop_returns (env : Env) (opts : AMQPModuleOptions) (token : string)
    (limit : Z) (connection : Connection) (n : nat) :
  forall (retry : Z) (s : Runtime),
    installed s ->
    Z.to_nat (limit - (retry + 1)) = n ->
    installed (final (retry_loop limit (retry_body env opts token) connection retry s)) /\
    ((result (retry_loop limit (retry_body env opts token) connection retry s) = None /\
      rt_open (final (retry_loop limit (retry_body env opts token) connection retry s)) =
        true /\
      reconnected
        (effects (retry_loop limit (retry_body env opts token) connection retry s))) \/
     (result (retry_loop limit (retry_body env opts token) connection retry s) =
        Some connection /\
      ~ reconnected
          (effects (retry_loop limit (retry_body env opts token) connection retry s)))).
Proof.
  induction n as [|n IH]; intros retry s H Hn;
    rewrite retry_loop_turn;
    destruct (retry_body_turn env opts token s H)
      as (Hi & [(Hres & Ho & Hrec) | (Hres & Hrec)]);
    rewrite Hres; cbn [result final effects fst snd];
    try (split; [exact Hi|]; left; repeat split; assumption);
    destruct (decide (retry + 1 < limit)) as [Hlt|Hge]; try lia;
    cbn [result final effects fst snd];
    try (split; [exact Hi|]; right; split; [reflexivity | exact Hrec]).
  destruct (rt_open (final (retry_body env opts token s)));
    cbn [result final effects fst snd];
    [split; [exact Hi|]; right; split; [reflexivity | exact Hrec]|].
  destruct (IH (retry + 1) (final (retry_body env opts token s)) Hi ltac:(lia))
    as (Hi' & [(Hres' & Ho' & Hrec') | (Hres' & Hrec')]);
    unfold after, reconnected in *; cbn [result final effects fst snd] in *;
    (split; [exact Hi'|]); rewrite emitted_app.
  - left. repeat split; try assumption. apply elem_of_app. right. exact Hrec'.
  - right. split; [assumption|]. intros [Hin|Hin]%elem_of_app; tauto.
Qed.

(** [createConnection] with options whose URI parses: the handlers are
    installed in the state it leaves, and it resolves with [undefined]
    exactly in the runs in which it emitted [AMQP_CONNECTION_RECONNECT],
    the connection being open then. *)
Lemma createConnection_returns (env : Env) (opts : AMQPModuleOptions)
    (base : ConnectionOptions) (listeners : BusEvent -> nat) :
  parsed_uri env opts = inr base ->
  let r := createConnection env (Some opts) (boot listeners) in
  installed (final r) /\
  ((result r = inr None /\ rt_open (final r) = true /\ reconnected (effects r)) \/
   (result r = inr (Some {| conn_options := spread base (connectionOptions opts) |}) /\
    ~ reconnected (effects r))).
Proof.
  intros Hp. cbv zeta. rewrite (createConnection_run _ _ _ _ Hp). cbv zeta.
  set (token := getConnectionToken env (ArgOptions opts)).
  assert (Hi : installed (registered listeners)) by reflexivity.
  pose proof (connection_open_not_reconnected env token _ Hi) as Hnot.
  destruct (connection_open_attempted env token _ Hi)
    as (_ & _ & _ & Hh & _ & _ & _ & _).
  set (r1 := connection_open env token (registered listeners)) in *.
  assert (Hi1 : installed (final r1)) by (unfold installed; rewrite Hh; reflexivity).
  unfold reconnected in *.
  destruct (result r1) as [|reason]; cbn [result final effects fst snd].
  - split; [exact Hi1|]. right. split; [reflexivity | exact Hnot].
  - cbv zeta.
    destruct (retry_loop_returns env opts token (reconnect_limit_of opts)
                {| conn_options := spread base (connectionOptions opts) |}
                _ 0 (final r1) Hi1 eq_refl)
      as (Hi' & [(Hres' & Ho' & Hrec') | (Hres' & Hrec')]);
      unfold reconnected in *; cbn [result final effects fst snd];
      (split; [exact Hi'|]); cbn [emitted]; rewrite emitted_app; cbn [emitted].
    + left. rewrite Hres'. repeat split; try assumption.
      apply elem_of_app. right. exact Hrec'.
    + right. rewrite Hres'. split; [reflexivity|].
      intros [Hin|Hin]%elem_of_app; tauto.
Qed.

(** C1. The call does not always resolve with the connection it created:
    when the broker refuses the first [connection.open()] and accepts the
    second, [createConnection] resolves with [undefined], the connection
    being open. *)
Theorem createConnection_resolves_undefined_after_retry :
  result (createConnection recovering (Some plain) (boot quiet)) = inr None /\
  rt_open (final (createConnection recovering (Some plain) (boot quiet))) = true.
Proof. split; reflexivity. Qed.

(** Against a broker that refuses every call: one first call, then one
    call per turn of the loop, which takes [reconnect_limit] turns and never
    fewer than one; the call returns the connection, closed. *)
Lemma createConnection_refused (env : Env) (opts : AMQPModuleOptions)
    (base : ConnectionOptions) (listeners : BusEvent -> nat) :
  always_refused env ->
  parsed_uri env opts = inr base ->
  let r := createConnection env (Some opts) (boot listeners) in
  result r = inr (Some {| conn_options := spread base (connectionOptions opts) |}) /\
  rt_open (final r) = false /\
  opens (effects r) = S (Z.to_nat (Z.max 1 (reconnect_limit_of opts))).
Proof.
  intros Hr Hp. cbv zeta.
  rewrite (createConnection_run _ _ _ _ Hp). cbv zeta.
  set (token := getConnectionToken env (ArgOptions opts)).
  assert (Hi : installed (registered listeners)) by reflexivity.
  destruct (connection_open_attempted env token _ Hi)
    as (Hres & _ & _ & Hh & _ & _ & Hc & _).
  destruct (Hr (rt_opens (registered listeners))) as (_ & reason & Hset).
  rewrite Hres, Hset. cbv zeta.
  set (s1 := final (connection_open env token (registered listeners))) in *.
  assert (Hi1 : installed s1) by (unfold installed; rewrite Hh; reflexivity).
  destruct (retry_loop_refused env opts token (reconnect_limit_of opts)
              {| conn_options := spread base (connectionOptions opts) |}
              (Z.to_nat (reconnect_limit_of opts - (0 + 1))) Hr 0 s1 Hi1 eq_refl)
    as (Hres' & Ho' & _ & Hc').
  cbn [result final effects fst snd].
  rewrite Hres', Ho'. repeat split.
  cbn [opens]. rewrite opens_app. cbn [opens]. rewrite Hc, Hc'. lia.
Qed.

(** C2, as the code has it.  With [reconnect_limit = L] (3 when it is not
    set), [L >= 1], and a broker that refuses every [connection.open()],
    [createConnection] calls it exactly [L] more times after the first
    refusal and then returns the connection, still closed, without
    throwing. *)
Theorem createConnection_exhausts_limit (env : Env) (opts : AMQPModuleOptions)
    (base : ConnectionOptions) (listeners : BusEvent -> nat) (L : Z) :
  always_refused env ->
  parsed_uri env opts = inr base ->
  reconnect_limit_of opts = L ->
  1 <= L ->
  let r := createConnection env (Some opts) (boot listeners) in
  result r = inr (Some {| conn_options := spread base (connectionOptions opts) |}) /\
  rt_open (final r) = false /\
  opens (effects r) = (1 + Z.to_nat L)%nat.
Proof.
  intros Hr Hp HL Hpos. cbv zeta.
  destruct (createConnection_refused env opts base listeners Hr Hp)
    as (Hres & Ho & Hc).
  rewrite Hres, Ho, Hc, HL. repeat split. lia.
Qed.

Lemma refusing_always_refused : always_refused refusing.
Proof. intros k. split; [reflexivity | eexists; reflexivity]. Qed.

Lemma createConnection_exhausts_limit_witness :
  let r := createConnection refusing (Some plain) (boot quiet) in
  result r = inr (Some {| conn_options := no_options |}) /\
  rt_open (final r) = false /\
  opens (effects r) = 4%nat.
Proof.
  apply (createConnection_exhausts_limit refusing plain no_options quiet 3).
  - exact refusing_always_refused.
  - reflexivity.
  - reflexivity.
  - lia.
Defined.

(** C2 as stated fails at [reconnect_limit = 0]: the body of the
    [do ... while] runs before the limit is looked at, so the refused first
    call is followed by one more call, not by none. *)
Lemma createConnection_limit_zero_retries_once :
  reconnect_limit_of (limited 0) = 0 /\
  opens (effects (createConnection refusing (Some (limited 0)) (boot quiet))) =
    (1 + 1)%nat.
Proof. split; reflexivity. Qed.

(** C9. [createConnection] throws its [Error], whose message carries the
    connection token, when [options] is missing; with options present it
    throws no [Error] of its own, whatever the transport does. *)
Theorem createConnection_rejects_missing_options (env : Env) (s : Runtime) :
  result (createConnection env None s) =
    inl (Error ("Invalid connection options: " +:+ getConnectionToken env ArgMissing)) /\
  effects (createConnection env None s) =
    [Log silly ["Connection creating: " +:+ getConnectionToken env ArgMissing]] /\
  forall opts : AMQPModuleOptions,
    is_Error (result (createConnection env (Some opts) s)) = false.
Proof.
  split; [reflexivity|]. split; [reflexivity|].
  intros opts. unfold createConnection.
  rewrite bind_run. cbn [result fst].
  destruct (parsed_uri env opts) as [thrown|base]; [reflexivity|].
  repeat (rewrite bind_run; cbn [result fst]).
  destruct (result (connection_open env _ _)); [reflexivity|].
  repeat (rewrite bind_run; cbn [result fst]).
  reflexivity.
Qed.

(** ** Runs of the event loop *)

Lemma run_cons (env : Env) (token : string) (st : Stimulus) (sts : list Stimulus)
    (s : Runtime) :
  final (run env token (st :: sts) s) =
    final (run env token sts (final (step env token st s))) /\
  effects (run env token (st :: sts) s) =
    effects (step env token st s) ++
    effects (run env token sts (final (step env token st s))).
Proof. cbn [run]. rewrite bind_run. split; reflexivity. Qed.

Lemma step_installed (env : Env) (token : string) (st : Stimulus) (s : Runtime) :
  installed s -> installed (final (step env token st s)).
Proof.
  intros H. unfold installed in *. destruct st as [e context|]; cbn [step].
  - destruct (deliver_delivered token e context s H) as (_ & _ & Hh & _).
    rewrite Hh. exact H.
  - destruct (rt_timers s) as [|d pending] eqn:Ht.
    + unfold fire. rewrite Ht. exact H.
    + destruct (fire_reopened env token s d pending H Ht) as (_ & _ & Hh & _).
      rewrite Hh. exact H.
Qed.

Lemma run_installed (env : Env) (token : string) (sts : list Stimulus) :
  forall s : Runtime, installed s -> installed (final (run env token sts s)).
Proof.
  induction sts as [|st sts IH]; intros s H.
  - exact H.
  - destruct (run_cons env token st sts s) as (-> & _).
    apply IH, step_installed, H.
Qed.

(** Every state the event loop reaches on a connection made by
    [createConnection] has the four handlers installed, once each. *)
Lemma created_connection_installed (env : Env) (opts : AMQPModuleOptions)
    (base : ConnectionOptions) (listeners : BusEvent -> nat) (sts : list Stimulus) :
  parsed_uri env opts = inr base ->
  installed
    (final (run env (getConnectionToken env (ArgOptions opts)) sts
              (final (createConnection env (Some opts) (boot listeners))))).
Proof.
  intros Hp. apply run_installed.
  apply (createConnection_returns env opts base listeners Hp).
Qed.

(** *** Counting the emissions over a run *)

Lemma disconnects_app (b1 b2 : list BusEvent) :
  disconnects (b1 ++ b2) = (disconnects b1 + disconnects b2)%nat.
Proof.
  induction b1 as [|e b1 IH]; [reflexivity|].
  destruct e; simpl; rewrite IH; reflexivity.
Qed.

Lemma disconnects_replicate (n : nat) :
  disconnects (replicate n AMQP_CONNECTION_DISCONNECTED) = n.
Proof. induction n as [|n IH]; [reflexivity|]. simpl. rewrite IH. reflexivity. Qed.

Lemma reported_during_add (env : Env) (a b : nat) :
  forall from : nat,
    reported_during env from (a + b) =
    (reported_during env from a + reported_during env (from + a) b)%nat.
Proof.
  induction a as [|a IH]; intros from.
  - cbn. rewrite Nat.add_0_r. reflexivity.
  - cbn [Nat.add reported_during]. rewrite IH.
    replace (S from + a)%nat with (from + S a)%nat by lia. lia.
Qed.

Lemma step_disconnects (env : Env) (token : string) (st : Stimulus) (s : Runtime) :
  installed s ->
  rt_opens (final (step env token st s)) =
    (rt_opens s + opens (effects (step env token st s)))%nat /\
  disconnects (emitted (effects (step env token st s))) =
    (reported [st] + opens (effects (step env token st s)) +
     reported_during env (rt_opens s) (opens (effects (step env token st s))))%nat.
Proof.
  intros H. destruct st as [e context|]; cbn [step].
  - destruct (deliver_delivered token e context s H)
      as (_ & Hn & _ & _ & _ & Hc & He).
    rewrite Hn, Hc, He, disconnects_replicate.
    destruct e; cbn; destruct (decide _); try congruence; split; lia.
  - destruct (rt_timers s) as [|d pending] eqn:Ht.
    + unfold fire. rewrite Ht. cbn. split; lia.
    + destruct (fire_reopened env token s d pending H Ht)
        as (_ & Hn & _ & _ & _ & Hc & He).
      rewrite Hn, Hc, He. cbn [with_timers rt_opens reported reported_during].
      split; [lia|].
      cbn [disconnects]. rewrite disconnects_app, disconnects_replicate.
      unfold announced.
      destruct (settled (open_outcome env (rt_opens s))); cbn; lia.
Qed.

(** Over every run of the event loop on a connection with the handlers of
    [createConnection], [AMQP_CONNECTION_DISCONNECTED] is emitted once for
    each [disconnected] the transport raises, between turns or while a
    reopen is pending, and once for each timeout that fires. *)
Lemma run_disconnects (env : Env) (token : string) (sts : list Stimulus) :
  forall s : Runtime,
    installed s ->
    rt_opens (final (run env token sts s)) =
      (rt_opens s + opens (effects (run env token sts s)))%nat /\
    disconnects (emitted (effects (run env token sts s))) =
      (reported sts + opens (effects (run env token sts s)) +
       reported_during env (rt_opens s) (opens (effects (run env token sts s))))%nat.
Proof.
  induction sts as [|st sts IH]; intros s H.
  - cbn. split; lia.
  - destruct (run_cons env token st sts s) as (-> & ->).
    destruct (step_disconnects env token st s H) as (Hn & Hd).
    destruct (IH _ (step_installed env token st s H)) as (Hn' & Hd').
    rewrite emitted_app, disconnects_app, opens_app, reported_during_add.
    rewrite Hd, Hd', Hn', Hn. split; [lia|].
    assert (reported (st :: sts) = (reported [st] + reported sts)%nat) as ->.
    { destruct st as [[] c|]; reflexivity. }
    lia.
Qed.

(** C3 as stated fails when the transport reports one close by the peer
    with both of its events: [connectionClose] sets the timeout,
    [disconnected] emits [AMQP_CONNECTION_DISCONNECTED], and the timeout,
    once it fires, dispatches [disconnected] again and emits the name a
    second time before it reopens. *)
Lemma close_reported_by_both_events_emits_twice :
  installed (established accepting) /\
  rt_open (established accepting) = true /\
  emitted (effects (run accepting "default"
                      [Raises connectionClose peer_close;
                       Raises disconnected peer_close;
                       TimerFires]
                      (established accepting))) =
    [AMQP_CONNECTION_DISCONNECTED; AMQP_CONNECTION_DISCONNECTED;
     AMQP_CONNECTION_RECONNECT] /\
  disconnects (emitted (effects (run accepting "default"
                                   [Raises connectionClose peer_close;
                                    Raises disconnected peer_close;
                                    TimerFires]
                                   (established accepting)))) = 2%nat.
Proof. repeat split. Qed.

(** C3, as the code has it.  On a connection with the handlers of
    [createConnection], every [disconnected] event that reaches the handler
    emits [AMQP_CONNECTION_DISCONNECTED] exactly once, calls no
    [connection.open()] and leaves the connection as it was; and over every
    run of the event loop the name is emitted once for each [disconnected]
    the transport raises, between turns or while a [connection.open()] is
    pending, and once more for each [connection.open()] called, which only
    a [connectionClose] timeout that fires does, after its own dispatch of
    [disconnected].  One close that the transport reports with one of the
    two events is announced once, one that it reports with both twice. *)
Theorem disconnected_emitted_once_per_report (env : Env) (token : string)
    (sts : list Stimulus) (s : Runtime) :
  installed s ->
  (forall context : EventContext,
     emitted (effects (step env token (Raises disconnected context) s)) =
       [AMQP_CONNECTION_DISCONNECTED] /\
     opens (effects (step env token (Raises disconnected context) s)) = 0%nat /\
     final (step env token (Raises disconnected context) s) = s) /\
  disconnects (emitted (effects (run env token sts s))) =
    (reported sts + opens (effects (run env token sts s)) +
     reported_during env (rt_opens s) (opens (effects (run env token sts s))))%nat.
Proof.
  intros H. split.
  - intros context. exact (disconnected_turn env token context s H).
  - apply (run_disconnects env token sts s H).
Qed.

Lemma disconnected_emitted_once_per_report_witness :
  (forall context : EventContext,
     emitted (effects (step accepting "default" (Raises disconnected context)
                         (established accepting))) =
       [AMQP_CONNECTION_DISCONNECTED] /\
     opens (effects (step accepting "default" (Raises disconnected context)
                       (established accepting))) = 0%nat /\
     final (step accepting "default" (Raises disconnected context)
              (established accepting)) = established accepting) /\
  disconnects
    (emitted (effects (run accepting "default"
                         [Raises connectionClose peer_close;
                          Raises disconnected peer_close;
                          TimerFires]
                         (established accepting)))) =
    (reported [Raises connectionClose peer_close;
               Raises disconnected peer_close;
               TimerFires] +
     opens (effects (run accepting "default"
                       [Raises connectionClose peer_close;
                        Raises disconnected peer_close;
                        TimerFires]
                       (established accepting))) +
     reported_during accepting (rt_opens (established accepting))
       (opens (effects (run accepting "default"
                          [Raises connectionClose peer_close;
                           Raises disconnected peer_close;
                           TimerFires]
                          (established accepting)))))%nat.
Proof.
  apply (disconnected_emitted_once_per_report accepting "default"
           [Raises connectionClose peer_close;
            Raises disconnected peer_close;
            TimerFires]
           (established accepting)).
  reflexivity.
Defined.

(** C4, as the code has it.  On an established connection the transport
    raises [connectionClose] and the timeout fires; when the
    [connection.open()] of the timeout resolves, no [disconnected] being
    raised while it is pending, the emissions of the two turns are exactly
    [AMQP_CONNECTION_DISCONNECTED] and then [AMQP_CONNECTION_RECONNECT]. *)
Theorem reopen_after_close_emits_pair (env : Env) (token : string)
    (context : EventContext) (s : Runtime) :
  installed s ->
  settled (open_outcome env (rt_opens s)) = Resolved ->
  raises disconnected (raised (open_outcome env (rt_opens s))) = 0%nat ->
  emitted (effects (run env token [Raises connectionClose context; TimerFires] s)) =
    [AMQP_CONNECTION_DISCONNECTED; AMQP_CONNECTION_RECONNECT].
Proof.
  intros H Hs Hd.
  destruct (run_cons env token (Raises connectionClose context) [TimerFires] s)
    as (_ & ->).
  destruct (run_cons env token TimerFires []
              (final (step env token (Raises connectionClose context) s)))
    as (_ & ->).
  cbn [run ret effects snd]. rewrite app_nil_r, emitted_app.
  cbn [step]. rewrite (deliver_installed _ _ _ _ H). cbn [handler].
  rewrite on_connectionClose_run. cbn [final effects fst snd emitted].
  set (s1 := with_timers (rt_timers s ++ [1000]) s).
  assert (Hf : exists d pending, rt_timers s1 = d :: pending).
  { cbn. destruct (rt_timers s); cbn; eauto. }
  destruct Hf as (d & pending & Hf).
  destruct (fire_reopened env token s1 d pending H Hf)
    as (_ & _ & _ & _ & _ & _ & He).
  cbn [s1 with_timers rt_opens] in He.
  rewrite He. unfold announced. rewrite Hs, Hd. reflexivity.
Qed.

Lemma reopen_after_close_emits_pair_witness :
  emitted
    (effects
       (run closing "default" [Raises connectionClose peer_close; TimerFires]
          (registered listening))) =
  [AMQP_CONNECTION_DISCONNECTED; AMQP_CONNECTION_RECONNECT].
Proof.
  apply (reopen_after_close_emits_pair closing "default" peer_close
           (registered listening)); reflexivity.
Defined.

(** C4 as stated fails on the path of [createConnection] itself.  The broker
    closes the first attempt, which sets the timeout of 1000 ms, and accepts
    the retry made 100 ms later: the event emitter sees
    [AMQP_CONNECTION_RECONNECT] with no [AMQP_CONNECTION_DISCONNECTED]
    before it, and the timeout adds its pair afterwards. *)
Lemma createConnection_reconnect_without_disconnect :
  emitted (effects (createConnection closed_once (Some impatient) (boot listening))) =
    [AMQP_CONNECTION_RECONNECT] /\
  reconnect_follows_disconnect false
    (emitted (effects (createConnection closed_once (Some impatient) (boot listening)))) =
    false /\
  rt_timers (final (createConnection closed_once (Some impatient) (boot listening))) =
    [1000] /\
  emitted (effects (createConnection closed_once (Some impatient) (boot listening))) ++
  emitted (effects (run closed_once "default" [TimerFires]
                      (final (createConnection closed_once (Some impatient)
                                (boot listening))))) =
    [AMQP_CONNECTION_RECONNECT; AMQP_CONNECTION_DISCONNECTED;
     AMQP_CONNECTION_RECONNECT].
Proof. repeat split; reflexivity. Qed.





(** ** [createSender] *)

(** C8, as the code has it.  [createSender] fails with the container's
    not-found error exactly when nothing is registered under the token it
    resolves, and it leaves the container as it found it.  It does not look
    at the state of the connection: on a registered connection the outcome
    is the one of the transport's [createAwaitableSender]. *)
Theorem createSender_fails_iff_unregistered (env : Env) (lib : Transport)
    (svc : Service) (options : CreateSenderOptions) :
  let token :=
    getConnectionToken env
      (match connectionName options with Some n => ArgName n | None => ArgMissing end) in
  ((createSender env lib svc options).1 = inl (UnknownElement token) <->
   moduleRef svc !! token = None) /\
  (createSender env lib svc options).2 = svc /\
  forall connection : Live,
    moduleRef svc !! token = Some (Some connection) ->
    (createSender env lib svc options).1 =
      match rhea_createAwaitableSender lib connection (senderOptions options) with
      | inl rejected => inl (Foreign rejected)
      | inr sender => inr (with_sender_handlers sender)
      end.
Proof.
  cbv zeta. unfold createSender, moduleRef_get.
  set (token := getConnectionToken env _).
  destruct (moduleRef svc !! token) as [[connection|]|] eqn:E.
  - destruct (rhea_createAwaitableSender lib connection (senderOptions options))
      eqn:Ea;
      (split; [split; [cbn; congruence | congruence] | split; [reflexivity|]]);
      intros c [= <-]; rewrite Ea; reflexivity.
  - split; [split; [cbn; congruence | congruence] | split; [reflexivity|]].
    intros c [=].
  - split; [split; reflexivity | split; [reflexivity|]].
    intros c [=].
Qed.

(** C8 as stated fails on a connection that is registered and not open:
    whatever the transport answers, [createSender] does not fail with the
    not-found error; the answer of the transport is its outcome. *)
Lemma createSender_on_closed_connection :
  moduleRef (holding false) !! "default" = Some (Some (live false)) /\
  live_open (live false) = false /\
  (createSender refusing rhea (holding false) to_queue).1 =
    inl (Foreign "connection is not open") /\
  forall lib : Transport,
    (createSender refusing lib (holding false) to_queue).1 <>
      inl (UnknownElement "default").
Proof.
  assert (E : moduleRef (holding false) !! "default" = Some (Some (live false)))
    by apply lookup_singleton_eq.
  split; [exact E|]. split; [reflexivity|].
  unfold createSender, moduleRef_get. cbn [refusing getConnectionToken to_queue
    connectionName sample_token senderOptions].
  rewrite E. split; [reflexivity|].
  intros lib. destruct (rhea_createAwaitableSender lib _ _); discriminate.
Qed.

(** ** [createReceiver] and the credit of a receiver *)

Lemma rhea_adds_credit : adds_credit rhea.
Proof. intros c n Hn. cbn. destruct (decide (0 < n)); lia. Qed.

Lemma createReceiver_run (lib : Transport) (svc : Service)
    (options : CreateReceiverOptions) (connection : Live) (attached : Receiver) :
  moduleRef svc !! connectionToken options = Some (Some connection) ->
  rhea_createReceiver lib connection (receiverOptions options) = inr attached ->
  createReceiver lib svc options =
  (inr {| recv_name := recv_name attached;
          credit := rhea_addCredit lib (credit attached) (credits options);
          recv_handlers :=
            recv_handlers attached ++
            [receiverOpen; receiverClose; receiverDrained; receiverFlow; settled_] |},
   svc,
   [AddCredit (credits options); Log silly ["Receiver created"; recv_name attached]]).
Proof.
  intros Hl Ha. unfold createReceiver, moduleRef_get. rewrite Hl, Ha.
  unfold addCredit, receiver_on. cbn. rewrite <- !app_assoc. reflexivity.
Qed.

(** The [receiverOpen] handler on a receiver that holds less than
    [credits], and on one that holds [credits] or more. *)
Lemma on_receiverOpen_below (lib : Transport) (credits : Z) (receiver : Receiver) :
  adds_credit lib ->
  credit receiver < credits ->
  recv_name (on_receiverOpen lib credits receiver).1 = recv_name receiver /\
  recv_handlers (on_receiverOpen lib credits receiver).1 = recv_handlers receiver /\
  credit (on_receiverOpen lib credits receiver).1 = credits /\
  granted (on_receiverOpen lib credits receiver).2 = [credits - credit receiver].
Proof.
  intros Hlib Hlt. unfold on_receiverOpen.
  destruct (decide (credit receiver < credits)); [|lia].
  cbn. rewrite Hlib by lia. repeat split; lia.
Qed.

Lemma on_receiverOpen_full (lib : Transport) (credits : Z) (receiver : Receiver) :
  credits <= credit receiver ->
  (on_receiverOpen lib credits receiver).1 = receiver /\
  granted (on_receiverOpen lib credits receiver).2 = [].
Proof.
  intros Hge. unfold on_receiverOpen.
  destruct (decide (credit receiver < credits)); [lia|].
  split; reflexivity.
Qed.

(** [receiverOpen] raised on a receiver that holds [credits] or more: no
    registration changes it, none grants anything. *)
Lemma receiver_deliver_to_full (hs : list ReceiverEvents) (lib : Transport)
    (credits : Z) (receiver : Receiver) :
  credits <= credit receiver ->
  (receiver_deliver_to hs lib credits receiverOpen receiver).1 = receiver /\
  granted (receiver_deliver_to hs lib credits receiverOpen receiver).2 = [].
Proof.
  intros Hge. induction hs as [|h hs IH]; [split; reflexivity|].
  cbn [receiver_deliver_to].
  destruct (decide (h = receiverOpen)) as [->|Hne].
  - cbn [on_receiver].
    destruct (on_receiverOpen_full lib credits receiver Hge) as (H1 & H2).
    destruct (on_receiverOpen lib credits receiver) as [r1 t1].
    cbn [fst snd] in H1, H2. subst r1.
    destruct IH as (IH1 & IH2).
    destruct (receiver_deliver_to hs lib credits receiverOpen receiver) as [r2 t2].
    cbn [fst snd] in *. rewrite granted_app, H2, IH2. split; [exact IH1 | reflexivity].
  - destruct IH as (IH1 & IH2).
    destruct (receiver_deliver_to hs lib credits receiverOpen receiver) as [r2 t2].
    cbn [fst snd] in *. split; assumption.
Qed.

(** [receiverOpen] raised on a receiver that holds less than [credits],
    delivered to registrations among which the event is: the first handler
    grants the difference, and the later ones find nothing missing. *)
Lemma receiver_deliver_to_below (hs : list ReceiverEvents) (lib : Transport)
    (credits : Z) (receiver : Receiver) :
  adds_credit lib ->
  receiverOpen ∈ hs ->
  credit receiver < credits ->
  recv_name (receiver_deliver_to hs lib credits receiverOpen receiver).1 =
    recv_name receiver /\
  recv_handlers (receiver_deliver_to hs lib credits receiverOpen receiver).1 =
    recv_handlers receiver /\
  credit (receiver_deliver_to hs lib credits receiverOpen receiver).1 = credits /\
  granted (receiver_deliver_to hs lib credits receiverOpen receiver).2 =
    [credits - credit receiver].
Proof.
  intros Hlib Hin Hlt. induction hs as [|h hs IH]; [inversion Hin|].
  cbn [receiver_deliver_to].
  destruct (decide (h = receiverOpen)) as [->|Hne].
  - cbn [on_receiver].
    destruct (on_receiverOpen_below lib credits receiver Hlib Hlt)
      as (Hn & Hh & Hc & Hg).
    destruct (on_receiverOpen lib credits receiver) as [r1 t1].
    cbn [fst snd] in Hn, Hh, Hc, Hg.
    destruct (receiver_deliver_to_full hs lib credits r1) as (H1 & H2); [lia|].
    destruct (receiver_deliver_to hs lib credits receiverOpen r1) as [r2 t2].
    cbn [fst snd] in *. subst r2.
    rewrite granted_app, Hg, H2. repeat split; assumption.
  - apply elem_of_cons in Hin as [Hin|Hin]; [congruence|].
    specialize (IH Hin).
    destruct (receiver_deliver_to hs lib credits receiverOpen receiver) as [r2 t2].
    exact IH.
Qed.

(** C7. On attach [createReceiver] grants the configured credit, once: the
    receiver it returns holds what the attached link held plus [credits].
    Whenever the transport afterwards raises [receiverOpen] on that
    receiver, whatever credit it holds by then, the handler
    [createReceiver] registered runs: finding less than [credits], it grants
    the difference, once, and so brings the credit to exactly [credits];
    finding [credits] or more, it grants nothing and leaves the receiver as
    it is. *)
Theorem createReceiver_grants_prefetch (lib : Transport) (svc : Service)
    (options : CreateReceiverOptions) (connection : Live) (attached : Receiver) :
  adds_credit lib ->
  0 <= credits options ->
  moduleRef svc !! connectionToken options = Some (Some connection) ->
  rhea_createReceiver lib connection (receiverOptions options) = inr attached ->
  exists receiver t,
    createReceiver lib svc options = (inr receiver, svc, t) /\
    granted t = [credits options] /\
    credit receiver = credit attached + credits options /\
    forall later : Receiver,
      recv_handlers later = recv_handlers receiver ->
      (credit later < credits options ->
       credit (receiver_raise lib (credits options) receiverOpen later).1 =
         credits options /\
       granted (receiver_raise lib (credits options) receiverOpen later).2 =
         [credits options - credit later]) /\
      (credits options <= credit later ->
       (receiver_raise lib (credits options) receiverOpen later).1 = later /\
       granted (receiver_raise lib (credits options) receiverOpen later).2 = []).
Proof.
  intros Hlib Hpos Hl Ha.
  rewrite (createReceiver_run _ _ _ _ _ Hl Ha).
  eexists _, _. split; [reflexivity|]. split; [reflexivity|].
  split; [cbn [credit]; apply Hlib, Hpos|].
  cbn [recv_handlers]. intros later Hh. unfold receiver_raise. rewrite Hh.
  split.
  - intros Hlt.
    destruct (receiver_deliver_to_below
                (recv_handlers attached ++
                 [receiverOpen; receiverClose; receiverDrained; receiverFlow; settled_])
                lib (credits options) later Hlib) as (_ & _ & Hc & Hg).
    + apply elem_of_app. right. apply elem_of_cons. left. reflexivity.
    + exact Hlt.
    + split; assumption.
  - intros Hge. apply receiver_deliver_to_full. exact Hge.
Qed.

Lemma createReceiver_grants_prefetch_witness :
  exists receiver t,
    createReceiver rhea (holding true) (from_queue 2) =
      (inr receiver, holding true, t) /\
    granted t = [2] /\
    credit receiver = 0 + 2 /\
    forall later : Receiver,
      recv_handlers later = recv_handlers receiver ->
      (credit later < 2 ->
       credit (receiver_raise rhea 2 receiverOpen later).1 = 2 /\
       granted (receiver_raise rhea 2 receiverOpen later).2 = [2 - credit later]) /\
      (2 <= credit later ->
       (receiver_raise rhea 2 receiverOpen later).1 = later /\
       granted (receiver_raise rhea 2 receiverOpen later).2 = []).
Proof.
  apply (createReceiver_grants_prefetch rhea (holding true) (from_queue 2)
           (live true)
           {| recv_name := "demo2"; credit := 0; recv_handlers := [] |}).
  - exact rhea_adds_credit.
  - cbn. lia.
  - apply lookup_singleton_eq.
  - reflexivity.
Defined.

Lemma rhea_attaches_without_credit : attaches_without_credit rhea.
Proof.
  intros connection o receiver. cbn.
  destruct (live_open connection); [|discriminate].
  intros [= <-]. reflexivity.
Qed.

(** What [createReceiver] returns holds [credits] once the transport's two
    assumptions are granted. *)
Lemma createReceiver_credit (lib : Transport) (svc svc' : Service)
    (options : CreateReceiverOptions) (receiver : Receiver) (t : list Effect) :
  adds_credit lib ->
  attaches_without_credit lib ->
  0 <= credits options ->
  createReceiver lib svc options = (inr receiver, svc', t) ->
  credit receiver = credits options.
Proof.
  intros Hlib Hfresh Hpos. unfold createReceiver, moduleRef_get.
  destruct (moduleRef svc !! connectionToken options) as [[connection|]|];
    try discriminate.
  destruct (rhea_createReceiver lib connection (receiverOptions options))
    as [rejected|attached] eqn:Ha; [discriminate|].
  cbn. intros [= <- _ _]. cbn.
  rewrite (Hfresh _ _ _ Ha), Hlib by exact Hpos. lia.
Qed.

(** Deliveries and dispositions keep the credit and the unsettled
    deliveries summing to the prefetch. *)
Lemma link_step_balance (lib : Transport) (prefetch : Z) (ev : LinkEvent)
    (l l' : Link) :
  adds_credit lib ->
  ev <> Confirms ->
  link_step lib prefetch ev l = Some l' ->
  0 <= credit (link_receiver l) ->
  credit (link_receiver l) + Z.of_nat (unsettled l) = prefetch ->
  0 <= credit (link_receiver l') /\
  credit (link_receiver l') + Z.of_nat (unsettled l') = prefetch.
Proof.
  intros Hlib Hev Hstep Hnn Hsum. destruct ev; [| |congruence]; cbn in Hstep.
  - destruct (decide (0 < credit (link_receiver l))); [|discriminate].
    injection Hstep as <-. cbn. lia.
  - destruct (unsettled l) as [|rest] eqn:Hu; [discriminate|].
    injection Hstep as <-. cbn. rewrite Hlib by lia. lia.
Qed.

Lemma link_run_balance (lib : Transport) (prefetch : Z) (evs : list LinkEvent) :
  adds_credit lib ->
  Forall (fun ev => ev <> Confirms) evs ->
  forall l l' : Link,
    link_run lib prefetch evs l = Some l' ->
    0 <= credit (link_receiver l) ->
    credit (link_receiver l) + Z.of_nat (unsettled l) = prefetch ->
    0 <= credit (link_receiver l') /\
    credit (link_receiver l') + Z.of_nat (unsettled l') = prefetch.
Proof.
  intros Hlib Hevs. induction Hevs as [|ev evs Hev _ IH]; intros l l' Hrun Hnn Hsum.
  - injection Hrun as <-. split; assumption.
  - cbn [link_run] in Hrun.
    destruct (link_step lib prefetch ev l) as [l1|] eqn:Hstep; [|discriminate].
    destruct (link_step_balance lib prefetch ev l l1 Hlib Hev Hstep Hnn Hsum)
      as (Hnn1 & Hsum1).
    exact (IH l1 l' Hrun Hnn1 Hsum1).
Qed.

(** A receiver created with prefetch [P], [P] not negative, on a transport
    that attaches links without credit: over every sequence of deliveries
    and dispositions that can happen (a delivery needs credit, a
    disposition an unsettled delivery), no [receiverOpen] being raised among
    them, the credit of the receiver is never negative and never above
    [P]. *)
Lemma credit_within_prefetch (lib : Transport) (svc svc' : Service)
    (options : CreateReceiverOptions) (receiver : Receiver) (t : list Effect)
    (evs : list LinkEvent) (l : Link) :
  adds_credit lib ->
  attaches_without_credit lib ->
  0 <= credits options ->
  createReceiver lib svc options = (inr receiver, svc', t) ->
  Forall (fun ev => ev <> Confirms) evs ->
  link_run lib (credits options) evs (attached_link receiver) = Some l ->
  0 <= credit (link_receiver l) <= credits options.
Proof.
  intros Hlib Hfresh Hpos Hc Hevs Hrun.
  pose proof (createReceiver_credit _ _ _ _ _ _ Hlib Hfresh Hpos Hc) as Hcredit.
  destruct (link_run_balance lib (credits options) evs Hlib Hevs
              (attached_link receiver) l Hrun) as (Hnn & Hsum).
  - cbn. lia.
  - cbn. lia.
  - lia.
Qed.

(** *** With open confirmations among the events *)

Lemma receiver_raise_receiverOpen (lib : Transport) (prefetch : Z) (receiver : Receiver) :
  confirms_once receiver ->
  (receiver_raise lib prefetch receiverOpen receiver).1 =
    (on_receiverOpen lib prefetch receiver).1.
Proof.
  unfold confirms_once, receiver_raise. intros ->.
  cbn [receiver_deliver_to].
  repeat (destruct (decide _) as [?|?]; try congruence).
  cbn [on_receiver].
  destruct (on_receiverOpen lib prefetch receiver) as [r1 t1]. reflexivity.
Qed.

Lemma on_receiverOpen_handlers (lib : Transport) (prefetch : Z) (receiver : Receiver) :
  recv_handlers (on_receiverOpen lib prefetch receiver).1 = recv_handlers receiver.
Proof.
  unfold on_receiverOpen. destruct (decide _); reflexivity.
Qed.

(** When the transport may also raise [receiverOpen] between deliveries and
    dispositions, the handler refills the credit while deliveries are still
    unsettled and their dispositions add to it afterwards; what stays true
    is that the credit is never negative. *)
Lemma link_run_with_confirmations (lib : Transport) (prefetch : Z)
    (evs : list LinkEvent) :
  adds_credit lib ->
  0 <= prefetch ->
  forall l l' : Link,
    link_run lib prefetch evs l = Some l' ->
    confirms_once (link_receiver l) ->
    0 <= credit (link_receiver l) ->
    confirms_once (link_receiver l') /\ 0 <= credit (link_receiver l').
Proof.
  intros Hlib Hpos. induction evs as [|ev evs IH]; intros l l' Hrun Hh Hb.
  - injection Hrun as <-. split; assumption.
  - cbn [link_run] in Hrun.
    destruct (link_step lib prefetch ev l) as [l1|] eqn:Hstep; [|discriminate].
    apply (IH l1 l' Hrun); destruct ev; cbn in Hstep.
    + destruct (decide (0 < credit (link_receiver l))); [|discriminate].
      injection Hstep as <-. exact Hh.
    + destruct (unsettled l); [discriminate|]. injection Hstep as <-. exact Hh.
    + injection Hstep as <-. cbn [link_receiver].
      rewrite (receiver_raise_receiverOpen _ _ _ Hh).
      unfold confirms_once. rewrite on_receiverOpen_handlers. exact Hh.
    + destruct (decide (0 < credit (link_receiver l))); [|discriminate].
      injection Hstep as <-. cbn. lia.
    + destruct (unsettled l) as [|rest] eqn:Hu; [discriminate|].
      injection Hstep as <-. cbn. rewrite Hlib by lia. lia.
    + injection Hstep as <-. cbn [link_receiver unsettled].
      rewrite (receiver_raise_receiverOpen _ _ _ Hh).
      unfold on_receiverOpen.
      destruct (decide (credit (link_receiver l) < prefetch)); cbn.
      * rewrite Hlib by lia. lia.
      * lia.
Qed.

(** [receiverOpen] raised on a receiver, whatever is registered on it,
    never lowers the credit and never lifts it above the larger of what the
    receiver held and [prefetch]. *)
Lemma receiver_deliver_to_bounds (hs : list ReceiverEvents) (lib : Transport)
    (prefetch : Z) :
  adds_credit lib ->
  forall receiver : Receiver,
    credit receiver <=
      credit (receiver_deliver_to hs lib prefetch receiverOpen receiver).1 <=
      Z.max (credit receiver) prefetch.
Proof.
  intros Hlib. induction hs as [|h hs IH]; intros receiver.
  - cbn. lia.
  - cbn [receiver_deliver_to].
    destruct (decide (h = receiverOpen)) as [->|Hne].
    + cbn [on_receiver].
      assert (Hc : credit receiver <= credit (on_receiverOpen lib prefetch receiver).1 <=
                   Z.max (credit receiver) prefetch).
      { destruct (decide (credit receiver < prefetch)) as [Hlt|Hge].
        - destruct (on_receiverOpen_below lib prefetch receiver Hlib Hlt)
            as (_ & _ & -> & _). lia.
        - destruct (on_receiverOpen_full lib prefetch receiver) as (-> & _); lia. }
      destruct (on_receiverOpen lib prefetch receiver) as [r1 t1].
      cbn [fst] in Hc. specialize (IH r1).
      destruct (receiver_deliver_to hs lib prefetch receiverOpen r1) as [r2 t2].
      cbn [fst] in *. lia.
    + specialize (IH receiver).
      destruct (receiver_deliver_to hs lib prefetch receiverOpen receiver) as [r2 t2].
      cbn [fst] in *. exact IH.
Qed.

(** Deliveries and dispositions keep the sum of the credit and the
    unsettled deliveries; an open confirmation adds at most [prefetch] to
    it. *)
Lemma link_run_bounds (lib : Transport) (prefetch : Z) (evs : list LinkEvent) :
  adds_credit lib ->
  0 <= prefetch ->
  forall l l' : Link,
    link_run lib prefetch evs l = Some l' ->
    0 <= credit (link_receiver l) ->
    0 <= credit (link_receiver l') /\
    credit (link_receiver l') + Z.of_nat (unsettled l') <=
      credit (link_receiver l) + Z.of_nat (unsettled l) +
      prefetch * Z.of_nat (confirmations evs).
Proof.
  intros Hlib Hpos. induction evs as [|ev evs IH]; intros l l' Hrun Hnn.
  - injection Hrun as <-. cbn. lia.
  - cbn [link_run] in Hrun.
    destruct (link_step lib prefetch ev l) as [l1|] eqn:Hstep; [|discriminate].
    destruct ev; cbn in Hstep; cbn [confirmations].
    + destruct (decide (0 < credit (link_receiver l))); [|discriminate].
      injection Hstep as <-.
      destruct (IH _ l' Hrun) as (H1 & H2); cbn in *; lia.
    + destruct (unsettled l) as [|rest] eqn:Hu; [discriminate|].
      injection Hstep as <-.
      destruct (IH _ l' Hrun) as (H1 & H2); cbn in *; rewrite ?Hlib in * by lia; lia.
    + injection Hstep as <-.
      pose proof (receiver_deliver_to_bounds (recv_handlers (link_receiver l))
                    lib prefetch Hlib (link_receiver l)) as Hb.
      fold (receiver_raise lib prefetch receiverOpen (link_receiver l)) in Hb.
      destruct (IH _ l' Hrun) as (H1 & H2); cbn [link_receiver unsettled] in *; [lia|].
      split; [exact H1|]. rewrite Nat2Z.inj_succ. lia.
Qed.

(** C6 as stated fails once the transport raises [receiverOpen] while a
    delivery is unsettled: the receiver [createReceiver] returns for
    prefetch 1 takes one delivery, the handler of [createReceiver] refills
    the credit to 1, and the disposition of the delivery lifts it to 2. *)
Lemma confirmation_between_delivery_and_disposition :
  createReceiver rhea (holding true) (from_queue 1) =
    (inr (demo_receiver 1), holding true,
     [AddCredit 1; Log silly ["Receiver created"; "demo2"]]) /\
  exists l : Link,
    link_run rhea 1 [Delivery; Confirms; Disposition]
      (attached_link (demo_receiver 1)) = Some l /\
    credit (link_receiver l) = 2 /\
    ~ credit (link_receiver l) <= 1.
Proof.
  split.
  - apply (createReceiver_run rhea (holding true) (from_queue 1) (live true)
             {| recv_name := "demo2"; credit := 0; recv_handlers := [] |}).
    + apply lookup_singleton_eq.
    + reflexivity.
  - eexists. split; [reflexivity|]. split; [reflexivity|].
    vm_compute. intros H. apply H. reflexivity.
Qed.

(** C6, as the code has it.  A receiver created with prefetch [P], [P] not
    negative, on a transport that attaches links without credit: over every
    sequence of deliveries, dispositions and [receiverOpen] events that can
    happen (a delivery needs credit, a disposition an unsettled delivery),
    the credit of the receiver is never negative, and the credit and the
    unsettled deliveries together never exceed [P] times one more than the
    number of [receiverOpen] events raised.  So the credit never exceeds
    [P] as long as no [receiverOpen] is raised, and each one raised can
    add up to [P] to the bound. *)
Theorem credit_bounded_by_confirmations (lib : Transport) (svc svc' : Service)
    (options : CreateReceiverOptions) (receiver : Receiver) (t : list Effect)
    (evs : list LinkEvent) (l : Link) :
  adds_credit lib ->
  attaches_without_credit lib ->
  0 <= credits options ->
  createReceiver lib svc options = (inr receiver, svc', t) ->
  link_run lib (credits options) evs (attached_link receiver) = Some l ->
  0 <= credit (link_receiver l) /\
  credit (link_receiver l) + Z.of_nat (unsettled l) <=
    credits options * (1 + Z.of_nat (confirmations evs)) /\
  (confirmations evs = 0%nat -> credit (link_receiver l) <= credits options).
Proof.
  intros Hlib Hfresh Hpos Hc Hrun.
  pose proof (createReceiver_credit _ _ _ _ _ _ Hlib Hfresh Hpos Hc) as Hcredit.
  destruct (link_run_bounds lib (credits options) evs Hlib Hpos
              (attached_link receiver) l Hrun) as (Hnn & Hsum).
  - cbn. lia.
  - cbn [attached_link link_receiver unsettled] in Hsum.
    split; [exact Hnn|]. split; [lia|].
    intros Hk. rewrite Hk in Hsum. lia.
Qed.

Lemma credit_bounded_by_confirmations_witness :
  exists l : Link,
    link_run rhea 2
      [Delivery; Delivery; Confirms; Disposition; Delivery; Disposition; Disposition]
      (attached_link (demo_receiver 2)) = Some l /\
    unsettled l = 0%nat /\
    credit (link_receiver l) = 4 /\
    0 <= credit (link_receiver l) /\
    credit (link_receiver l) + Z.of_nat (unsettled l) <=
      2 * (1 + Z.of_nat
                 (confirmations
                    [Delivery; Delivery; Confirms; Disposition; Delivery;
                     Disposition; Disposition])) /\
    (confirmations
       [Delivery; Delivery; Confirms; Disposition; Delivery;
        Disposition; Disposition] = 0%nat ->
     credit (link_receiver l) <= 2).
Proof.
  eexists. split; [reflexivity|]. split; [reflexivity|]. split; [reflexivity|].
  apply (credit_bounded_by_confirmations rhea (holding true) (holding true)
           (from_queue 2) (demo_receiver 2)
           [AddCredit 2; Log silly ["Receiver created"; "demo2"]]
           [Delivery; Delivery; Confirms; Disposition; Delivery;
            Disposition; Disposition]).
  - exact rhea_adds_credit.
  - exact rhea_attaches_without_credit.
  - cbn. lia.
  - apply (createReceiver_run rhea (holding true) (from_queue 2) (live true)
             {| recv_name := "demo2"; credit := 0; recv_handlers := [] |}).
    + apply lookup_singleton_eq.
    + reflexivity.
  - reflexivity.
Defined.

(** * Further properties of the service *)

(** ** The trace of [createConnection] against any broker *)

Lemma sleeps_app (t1 t2 : list Effect) : sleeps (t1 ++ t2) = sleeps t1 ++ sleeps t2.
Proof.
  induction t1 as [|e t1 IH]; [reflexivity|].
  destruct e; simpl; rewrite IH; reflexivity.
Qed.

Lemma sleeps_handler (token : string) (e : ConnectionEvents) (context : EventContext)
    (s : Runtime) :
  sleeps (effects (handler token e context s)) = [].
Proof.
  destruct e; cbn [handler].
  - reflexivity.
  - reflexivity.
  - rewrite on_disconnected_run. cbn. destruct (bool_decide _); reflexivity.
  - rewrite on_connectionClose_run. reflexivity.
Qed.

Lemma sleeps_deliver_to (hs : list ConnectionEvents) (token : string)
    (e : ConnectionEvents) (context : EventContext) :
  forall s : Runtime, sleeps (effects (deliver_to hs token e context s)) = [].
Proof.
  induction hs as [|h hs IH]; intros s; [reflexivity|].
  cbn [deliver_to]. rewrite bind_run. cbn [effects snd].
  rewrite sleeps_app, IH, app_nil_r.
  destruct (decide (h = e)); [apply sleeps_handler | reflexivity].
Qed.

Lemma sleeps_deliver_all (token : string) (evs : list (ConnectionEvents * EventContext)) :
  forall s : Runtime, sleeps (effects (deliver_all token evs s)) = [].
Proof.
  induction evs as [|[e context] evs IH]; intros s; [reflexivity|].
  cbn [deliver_all]. rewrite bind_run. cbn [effects snd].
  rewrite sleeps_app, IH, app_nil_r. apply sleeps_deliver_to.
Qed.

Lemma sleeps_connection_open (env : Env) (token : string) (s : Runtime) :
  sleeps (effects (connection_open env token s)) = [].
Proof.
  unfold connection_open.
  pose proof (sleeps_deliver_all token (raised (open_outcome env (rt_opens s)))
                {| rt_open := rt_open s; rt_opens := S (rt_opens s);
                   rt_handlers := rt_handlers s; rt_timers := rt_timers s;
                   rt_listeners := rt_listeners s |}) as H.
  destruct (deliver_all token _ _) as [[[] s1] t1]. exact H.
Qed.

(** One turn of the loop body against any broker. *)
Lemma retry_body_trace (env : Env) (opts : AMQPModuleOptions) (token : string)
    (s : Runtime) :
  installed s ->
  installed (final (retry_body env opts token s)) /\
  rt_opens (final (retry_body env opts token s)) = S (rt_opens s) /\
  opens (effects (retry_body env opts token s)) = 1%nat /\
  sleeps (effects (retry_body env opts token s)) = [reconnect_delay_of opts] /\
  emitted (effects (retry_body env opts token s)) =
    replicate (raises disconnected (raised (open_outcome env (rt_opens s))))
      AMQP_CONNECTION_DISCONNECTED ++
    match result (retry_body env opts token s) with
    | ReturnsUndefined => [AMQP_CONNECTION_RECONNECT]
    | ReachesCondition => []
    end.
Proof.
  intros H. rewrite retry_body_run. cbv zeta.
  pose proof (sleeps_connection_open env token s) as Hs.
  destruct (connection_open_attempted env token s H)
    as (_ & _ & Hn & Hh & _ & _ & Hc & He).
  assert (Hi : installed (final (connection_open env token s)))
    by (unfold installed in *; rewrite Hh; exact H).
  destruct (result (connection_open env token s)) as [|reason];
    [destruct (rt_open (final (connection_open env token s)))|];
    cbn [result final effects fst snd];
    (split; [exact Hi|]); (split; [exact Hn|]);
    cbn [app opens sleeps emitted];
    rewrite ?opens_app, ?sleeps_app, ?emitted_app, Hc, Hs, He;
    cbn [opens sleeps emitted]; rewrite ?app_nil_r;
    repeat split; lia.
Qed.

Lemma after_run {A} (t : list Effect) (r : A * Runtime * list Effect) :
  result (after t r) = result r /\
  final (after t r) = final r /\
  effects (after t r) = t ++ effects r.
Proof. repeat split. Qed.

(** The loop against any broker, entered with [n] turns left below the
    limit after the first. *)
Lemma retry_loop_trace (env : Env) (opts : AMQPModuleOptions) (token : string)
    (limit : Z) (connection : Connection) (n : nat) :
  forall (retry : Z) (s : Runtime),
    installed s ->
    Z.to_nat (limit - (retry + 1)) = n ->
    let r := retry_loop limit (retry_body env opts token) connection retry s in
    installed (final r) /\
    rt_opens (final r) = (rt_opens s + opens (effects r))%nat /\
    (1 <= opens (effects r) <= S n)%nat /\
    sleeps (effects r) = replicate (opens (effects r)) (reconnect_delay_of opts) /\
    emitted (effects r) =
      replicate (reported_during env (rt_opens s) (opens (effects r)))
        AMQP_CONNECTION_DISCONNECTED ++
      match result r with
      | None => [AMQP_CONNECTION_RECONNECT]
      | Some _ => []
      end.
Proof.
  induction n as [|n IH]; intros retry s H Hn; cbv zeta;
    rewrite retry_loop_turn;
    destruct (retry_body_trace env opts token s H) as (Hi & Hk & Hc & Hs & He);
    destruct (result (retry_body env opts token s)) eqn:Hres;
    try (cbn [result final effects fst snd];
         rewrite Hk, Hc, Hs, He; cbn [reported_during replicate];
         rewrite Nat.add_0_r; repeat split; (assumption || lia));
    destruct (decide (retry + 1 < limit)) as [Hlt|Hge]; try lia;
    try (cbn [result final effects fst snd];
         rewrite Hk, Hc, Hs, He; cbn [reported_during replicate];
         rewrite Nat.add_0_r; repeat split; (assumption || lia)).
  destruct (rt_open (final (retry_body env opts token s)));
    [cbn [result final effects fst snd];
     rewrite Hk, Hc, Hs, He; cbn [reported_during replicate];
     rewrite Nat.add_0_r; repeat split; (assumption || lia)|].
  destruct (IH (retry + 1) (final (retry_body env opts token s)) Hi ltac:(lia))
    as (Hi' & Hk' & Hc' & Hs' & He').
  destruct (after_run (effects (retry_body env opts token s))
              (retry_loop limit (retry_body env opts token) connection (retry + 1)
                 (final (retry_body env opts token s)))) as (-> & -> & ->).
  rewrite opens_app, sleeps_app, emitted_app, Hc, Hs, He, Hk', Hs', He', Hk.
  cbn [Nat.add reported_during replicate]. rewrite replicate_add, app_nil_r.
  repeat split; try assumption; try lia.
  rewrite <- app_assoc. reflexivity.
Qed.

(** [createConnection] against any broker: how many calls it makes, what it
    sleeps, and the emissions among its own effects (what a timeout or the
    transport adds while it sleeps is not among them). *)
Lemma createConnection_trace (env : Env) (opts : AMQPModuleOptions)
    (base : ConnectionOptions) (listeners : BusEvent -> nat) :
  parsed_uri env opts = inr base ->
  let r := createConnection env (Some opts) (boot listeners) in
  rt_opens (final r) = opens (effects r) /\
  (1 <= opens (effects r) <= 1 + Z.to_nat (Z.max 1 (reconnect_limit_of opts)))%nat /\
  sleeps (effects r) =
    replicate (opens (effects r) - 1) (reconnect_delay_of opts) /\
  emitted (effects r) =
    replicate (reported_during env 0 (opens (effects r)))
      AMQP_CONNECTION_DISCONNECTED ++ reconnect_if_undefined (result r).
Proof.
  intros Hp. cbv zeta. rewrite (createConnection_run _ _ _ _ Hp). cbv zeta.
  set (token := getConnectionToken env (ArgOptions opts)).
  assert (Hi : installed (registered listeners)) by reflexivity.
  pose proof (sleeps_connection_open env token (registered listeners)) as Hs.
  destruct (connection_open_attempted env token _ Hi)
    as (_ & _ & Hn & Hh & _ & _ & Hc & He).
  set (r1 := connection_open env token (registered listeners)) in *.
  assert (Hi1 : installed (final r1)) by (unfold installed; rewrite Hh; reflexivity).
  cbn [registered rt_opens] in Hn, He.
  destruct (result r1) as [|reason]; cbn [result final effects fst snd].
  - cbn [opens sleeps emitted reconnect_if_undefined].
    rewrite Hn, Hc, Hs, He. cbn. rewrite Nat.add_0_r, app_nil_r.
    repeat split; lia.
  - cbv zeta.
    destruct (retry_loop_trace env opts token (reconnect_limit_of opts)
                {| conn_options := spread base (connectionOptions opts) |}
                _ 0 (final r1) Hi1 eq_refl)
      as (_ & Hk' & Hc' & Hs' & He').
    cbn [result final effects fst snd].
    cbn [opens sleeps emitted].
    rewrite opens_app, sleeps_app, emitted_app. cbn [opens sleeps emitted].
    rewrite Hc, Hs, He, Hk', Hs', He', Hn.
    cbn [Nat.add reported_during app]. rewrite Nat.sub_succ, Nat.sub_0_r, replicate_add.
    repeat split; try lia.
    rewrite <- app_assoc.
    destruct (result (retry_loop _ _ _ _ _)); reflexivity.
Qed.

(** X1. Whatever the broker does, [createConnection] calls
    [connection.open()] at least once and at most [1 + max(1, L)] times,
    [L] being [reconnect_limit] of [options.connectionOptions] (3 when it
    is not set). *)
Theorem createConnection_attempts_bounded (env : Env) (opts : AMQPModuleOptions)
    (base : ConnectionOptions) (listeners : BusEvent -> nat) :
  parsed_uri env opts = inr base ->
  (1 <= opens (effects (createConnection env (Some opts) (boot listeners))) <=
   1 + Z.to_nat (Z.max 1 (reconnect_limit_of opts)))%nat.
Proof.
  intros Hp. apply (createConnection_trace env opts base listeners Hp).
Qed.

Lemma createConnection_attempts_bounded_witness :
  (1 <= opens (effects (createConnection recovering (Some (limited 5)) (boot quiet))) <=
   1 + Z.to_nat (Z.max 1 (reconnect_limit_of (limited 5))))%nat.
Proof.
  apply (createConnection_attempts_bounded recovering (limited 5) no_options quiet).
  reflexivity.
Defined.



(** X4. When the first [connection.open()] resolves, [createConnection]
    returns the connection after that single call, without sleeping and
    without asking [isOpen()]: the connection is returned also when it is
    not open. *)
Theorem createConnection_first_open_resolved (env : Env) (opts : AMQPModuleOptions)
    (base : ConnectionOptions) (listeners : BusEvent -> nat) :
  parsed_uri env opts = inr base ->
  settled (open_outcome env 0) = Resolved ->
  let r := createConnection env (Some opts) (boot listeners) in
  result r = inr (Some {| conn_options := spread base (connectionOptions opts) |}) /\
  opens (effects r) = 1%nat /\
  sleeps (effects r) = [] /\
  rt_open (final r) = open_after (open_outcome env 0).
Proof.
  intros Hp Hs. cbv zeta.
  rewrite (createConnection_run _ _ _ _ Hp). cbv zeta.
  set (token := getConnectionToken env (ArgOptions opts)).
  assert (Hi : installed (registered listeners)) by reflexivity.
  pose proof (sleeps_connection_open env token (registered listeners)) as Hsl.
  destruct (connection_open_attempted env token _ Hi)
    as (Hres & Ho & _ & _ & _ & _ & Hc & _).
  cbn [registered rt_opens] in Hres, Ho.
  rewrite Hres, Hs. cbn [result final effects fst snd opens sleeps].
  rewrite Hc, Hsl, Ho. repeat split.
Qed.

Lemma createConnection_first_open_resolved_witness :
  let r := createConnection hesitant (Some plain) (boot quiet) in
  result r = inr (Some {| conn_options := no_options |}) /\
  opens (effects r) = 1%nat /\
  sleeps (effects r) = [] /\
  rt_open (final r) = false.
Proof.
  apply (createConnection_first_open_resolved hesitant plain no_options quiet);
    reflexivity.
Defined.

(** X5. With options present [createConnection] rejects only when the URI
    cannot be parsed: then nothing has been registered or opened and only
    the first line is logged; in every other case it resolves.  A URI that
    is missing or empty is not handed to the parser at all. *)
Theorem createConnection_rejects_only_unparsed_uri (env : Env)
    (opts : AMQPModuleOptions) (listeners : BusEvent -> nat) :
  (forall reason,
     parsed_uri env opts = inl reason ->
     createConnection env (Some opts) (boot listeners) =
       (inl (Foreign reason), boot listeners,
        [Log silly ["Connection creating: " +:+
                    getConnectionToken env (ArgOptions opts)]])) /\
  (forall base,
     parsed_uri env opts = inr base ->
     exists returned,
       result (createConnection env (Some opts) (boot listeners)) = inr returned) /\
  (forall reason,
     parsed_uri env opts = inl reason <->
     exists uri, connectionUri opts = Some uri /\ uri <> "" /\
                 parseURL env uri = inl reason).
Proof.
  split; [|split].
  - intros reason Hp. unfold createConnection. rewrite Hp. reflexivity.
  - intros base Hp.
    destruct (createConnection_returns env opts base listeners Hp)
      as (_ & [(-> & _) | (-> & _)]); eexists; reflexivity.
  - intros reason. unfold parsed_uri.
    destruct (connectionUri opts) as [uri|].
    + destruct (decide (uri = "")) as [->|Hne].
      * split; [discriminate|]. intros (uri & [= <-] & Hne & _). congruence.
      * split.
        -- intros Hp. exists uri. repeat split; assumption.
        -- intros (uri' & [= <-] & _ & Hp). exact Hp.
    + split; [discriminate|]. intros (uri & [=] & _).
Qed.

(** ** What the retry loop reads *)

Lemma retry_body_env (env1 env2 : Env) (opts : AMQPModuleOptions) (token : string) :
  open_outcome env1 = open_outcome env2 ->
  retry_body env1 opts token = retry_body env2 opts token.
Proof.
  intros H. unfold retry_body, connection_open. rewrite H. reflexivity.
Qed.

Lemma retry_loop_connection (limit : Z) (body : Act Turn) (c1 c2 : Connection)
    (n : nat) :
  forall (retry : Z) (s : Runtime),
    Z.to_nat (limit - (retry + 1)) = n ->
    effects (retry_loop limit body c1 retry s) =
      effects (retry_loop limit body c2 retry s) /\
    final (retry_loop limit body c1 retry s) =
      final (retry_loop limit body c2 retry s) /\
    (result (retry_loop limit body c1 retry s) = None <->
     result (retry_loop limit body c2 retry s) = None).
Proof.
  induction n as [|n IH]; intros retry s Hn;
    rewrite !(retry_loop_turn limit body _ retry s);
    destruct (result (body s));
    try (repeat split; reflexivity);
    destruct (decide (retry + 1 < limit)); try lia;
    try (cbn [result]; repeat split; discriminate).
  destruct (rt_open (final (body s)));
    [cbn [result]; repeat split; discriminate|].
  destruct (IH (retry + 1) (final (body s)) ltac:(lia)) as (He & Hf & Hr).
  destruct (after_run (effects (body s))
              (retry_loop limit body c1 (retry + 1) (final (body s))))
    as (-> & -> & ->).
  destruct (after_run (effects (body s))
              (retry_loop limit body c2 (retry + 1) (final (body s))))
    as (-> & -> & ->).
  rewrite He, Hf. repeat split; apply Hr.
Qed.

(** X6. The retry loop takes [reconnect_limit] and
    [initial_reconnect_delay] from [options.connectionOptions] only: what
    the URI parser finds in the URI goes into the connection and changes
    nothing in what [createConnection] does, sleeps, emits or leaves. *)
Theorem createConnection_ignores_uri_retry_settings (env1 env2 : Env)
    (opts : AMQPModuleOptions) (base1 base2 : ConnectionOptions)
    (listeners : BusEvent -> nat) :
  getConnectionToken env1 = getConnectionToken env2 ->
  open_outcome env1 = open_outcome env2 ->
  parsed_uri env1 opts = inr base1 ->
  parsed_uri env2 opts = inr base2 ->
  effects (createConnection env1 (Some opts) (boot listeners)) =
    effects (createConnection env2 (Some opts) (boot listeners)) /\
  final (createConnection env1 (Some opts) (boot listeners)) =
    final (createConnection env2 (Some opts) (boot listeners)) /\
  (result (createConnection env1 (Some opts) (boot listeners)) = inr None <->
   result (createConnection env2 (Some opts) (boot listeners)) = inr None).
Proof.
  intros Ht Ho Hp1 Hp2.
  rewrite (createConnection_run _ _ _ _ Hp1), (createConnection_run _ _ _ _ Hp2).
  cbv zeta. rewrite Ht, (retry_body_env env1 env2 _ _ Ho).
  assert (Hc : forall token s,
             connection_open env1 token s = connection_open env2 token s).
  { intros token s. unfold connection_open. rewrite Ho. reflexivity. }
  rewrite Hc.
  destruct (result (connection_open env2 _ (registered listeners))).
  - cbn [result final effects fst snd]. repeat split; discriminate.
  - cbv zeta.
    destruct (retry_loop_connection (reconnect_limit_of opts)
                (retry_body env2 opts (getConnectionToken env2 (ArgOptions opts)))
                {| conn_options := spread base1 (connectionOptions opts) |}
                {| conn_options := spread base2 (connectionOptions opts) |}
                _ 0
                (final (connection_open env2
                          (getConnectionToken env2 (ArgOptions opts))
                          (registered listeners))) eq_refl)
      as (He & Hf & Hr).
    cbn [result final effects fst snd]. rewrite He, Hf.
    repeat split.
    + intros [= H]. f_equal. apply Hr, H.
    + intros [= H]. f_equal. apply Hr, H.
Qed.

Lemma createConnection_ignores_uri_retry_settings_witness :
  effects (createConnection refusing_eager (Some (by_uri "amqp://broker")) (boot quiet)) =
    effects (createConnection refusing (Some (by_uri "amqp://broker")) (boot quiet)) /\
  final (createConnection refusing_eager (Some (by_uri "amqp://broker")) (boot quiet)) =
    final (createConnection refusing (Some (by_uri "amqp://broker")) (boot quiet)) /\
  (result (createConnection refusing_eager (Some (by_uri "amqp://broker")) (boot quiet)) =
     inr None <->
   result (createConnection refusing (Some (by_uri "amqp://broker")) (boot quiet)) =
     inr None).
Proof.
  apply (createConnection_ignores_uri_retry_settings refusing_eager refusing
           (by_uri "amqp://broker") eager_options no_options quiet);
    reflexivity.
Defined.

(** ** Invariants of the event loop *)

(** X7. [createConnection] registers one handler for each of the four
    connection events, and nothing that happens afterwards, events raised,
    timeouts fired, reopens made, adds or removes a registration. *)
Theorem handlers_stay_installed (env : Env) (opts : AMQPModuleOptions)
    (base : ConnectionOptions) (listeners : BusEvent -> nat) (sts : list Stimulus) :
  parsed_uri env opts = inr base ->
  rt_handlers
    (final (run env (getConnectionToken env (ArgOptions opts)) sts
              (final (createConnection env (Some opts) (boot listeners))))) =
  [connectionOpen; connectionError; disconnected; connectionClose].
Proof.
  intros Hp. apply run_installed.
  apply (createConnection_returns env opts base listeners Hp).
Qed.

Lemma handlers_stay_installed_witness :
  rt_handlers
    (final (run closing (getConnectionToken closing (ArgOptions plain))
              [Raises connectionClose peer_close; TimerFires;
               Raises disconnected peer_close; TimerFires]
              (final (createConnection closing (Some plain) (boot listening))))) =
  [connectionOpen; connectionError; disconnected; connectionClose].
Proof.
  apply (handlers_stay_installed closing plain no_options listening).
  reflexivity.
Defined.

Lemma closes_during_add (env : Env) (a b : nat) :
  forall from : nat,
    closes_during env from (a + b) =
    (closes_during env from a + closes_during env (from + a) b)%nat.
Proof.
  induction a as [|a IH]; intros from.
  - cbn. rewrite Nat.add_0_r. reflexivity.
  - cbn [Nat.add closes_during]. rewrite IH.
    replace (S from + a)%nat with (from + S a)%nat by lia. lia.
Qed.

Lemma step_timers (env : Env) (token : string) (st : Stimulus) (s : Runtime) :
  installed s ->
  rt_opens (final (step env token st s)) =
    (rt_opens s + opens (effects (step env token st s)))%nat /\
  (length (rt_timers (final (step env token st s))) +
   opens (effects (step env token st s)) =
   length (rt_timers s) + closes [st] +
   closes_during env (rt_opens s) (opens (effects (step env token st s))))%nat.
Proof.
  intros H. destruct st as [e context|]; cbn [step].
  - destruct (deliver_delivered token e context s H)
      as (_ & Hn & _ & _ & Ht & Hc & _).
    rewrite Hn, Hc, Ht, length_app, length_replicate.
    destruct e; cbn; destruct (decide _); try congruence; split; lia.
  - destruct (rt_timers s) as [|d pending] eqn:Hp.
    + unfold fire. rewrite Hp. cbn. rewrite Hp. cbn. split; lia.
    + destruct (fire_reopened env token s d pending H Hp)
        as (_ & Hn & _ & _ & Ht & Hc & _).
      rewrite Hn, Hc, Ht, length_app, length_replicate.
      cbn [with_timers rt_opens rt_timers closes closes_during length].
      split; lia.
Qed.

(** X8. No reopen is lost and none is made up: over every run of the event
    loop, the timeouts pending at the end plus the calls of
    [connection.open()] made equal the timeouts pending at the start plus
    the [connectionClose] events the transport raised, between turns or
    while a reopen was pending. *)
Theorem timeouts_match_closes (env : Env) (token : string) (sts : list Stimulus) :
  forall s : Runtime,
    installed s ->
    (length (rt_timers (final (run env token sts s))) +
     opens (effects (run env token sts s)) =
     length (rt_timers s) + closes sts +
     closes_during env (rt_opens s) (opens (effects (run env token sts s))))%nat.
Proof.
  assert (Hgen : forall s : Runtime,
             installed s ->
             rt_opens (final (run env token sts s)) =
               (rt_opens s + opens (effects (run env token sts s)))%nat /\
             (length (rt_timers (final (run env token sts s))) +
              opens (effects (run env token sts s)) =
              length (rt_timers s) + closes sts +
              closes_during env (rt_opens s)
                (opens (effects (run env token sts s))))%nat).
  { induction sts as [|st sts IH]; intros s H.
    - cbn. split; lia.
    - destruct (run_cons env token st sts s) as (-> & ->).
      destruct (step_timers env token st s H) as (Hn & Hd).
      destruct (IH _ (step_installed env token st s H)) as (Hn' & Hd').
      rewrite opens_app, closes_during_add, Hn', Hn. split; [lia|].
      rewrite <- Hn.
      assert (closes (st :: sts) = (closes [st] + closes sts)%nat) as ->.
      { destruct st as [[] c|]; reflexivity. }
      lia. }
  intros s H. apply Hgen, H.
Qed.

Lemma timeouts_match_closes_witness :
  (length (rt_timers (final (run closing "default"
                               [Raises connectionClose peer_close; TimerFires;
                                TimerFires; Raises connectionClose peer_close]
                               (established closing)))) +
   opens (effects (run closing "default"
                     [Raises connectionClose peer_close; TimerFires;
                      TimerFires; Raises connectionClose peer_close]
                     (established closing))) =
   length (rt_timers (established closing)) +
   closes [Raises connectionClose peer_close; TimerFires;
           TimerFires; Raises connectionClose peer_close] +
   closes_during closing (rt_opens (established closing))
     (opens (effects (run closing "default"
                        [Raises connectionClose peer_close; TimerFires;
                         TimerFires; Raises connectionClose peer_close]
                        (established closing)))))%nat.
Proof.
  apply (timeouts_match_closes closing "default"
           [Raises connectionClose peer_close; TimerFires;
            TimerFires; Raises connectionClose peer_close]
           (established closing)).
  reflexivity.
Defined.

(** X9. The [connectionOpen] and [connectionError] events are only logged:
    one line, the connection and its timeouts untouched, nothing emitted and
    no reopen scheduled or made. *)
Theorem open_and_error_events_only_log (env : Env) (token : string)
    (e : ConnectionEvents) (context : EventContext) (s : Runtime) :
  installed s ->
  e = connectionOpen \/ e = connectionError ->
  final (step env token (Raises e context) s) = s /\
  exists lvl args, effects (step env token (Raises e context) s) = [Log lvl args].
Proof.
  intros H [-> | ->]; cbn [step]; rewrite (deliver_installed _ _ _ _ H);
    cbn [handler]; (split; [reflexivity|]); eexists _, _; reflexivity.
Qed.

Lemma open_and_error_events_only_log_witness :
  final (step dropped "default" (Raises connectionError peer_close)
           (established dropped)) = established dropped /\
  exists lvl args,
    effects (step dropped "default" (Raises connectionError peer_close)
               (established dropped)) = [Log lvl args].
Proof.
  apply (open_and_error_events_only_log dropped "default" connectionError peer_close
           (established dropped)).
  - reflexivity.
  - right. reflexivity.
Defined.

(** X10. The [disconnected] handler logs [disconnect event not emitted]
    exactly when nobody listens to [AMQP_CONNECTION_DISCONNECTED] on the
    event emitter. *)
Theorem disconnect_warning_iff_no_listener (env : Env) (token : string)
    (context : EventContext) (s : Runtime) :
  installed s ->
  Log warn ["disconnect event not emitted"] ∈
    effects (step env token (Raises disconnected context) s) <->
  rt_listeners s AMQP_CONNECTION_DISCONNECTED = 0%nat.
Proof.
  intros H. cbn [step]. rewrite (deliver_installed _ _ _ _ H). cbn [handler].
  rewrite on_disconnected_run. cbn [effects snd].
  rewrite !elem_of_cons.
  case_bool_decide as Hl.
  - split; [|lia]. intros [Heq | [Heq | Hin]]; try discriminate.
    apply elem_of_nil in Hin. contradiction.
  - split; [lia|]. intros _. right. right. apply list_elem_of_singleton. reflexivity.
Qed.

Lemma disconnect_warning_iff_no_listener_witness :
  Log warn ["disconnect event not emitted"] ∈
    effects (step dropped "default" (Raises disconnected peer_close)
               (registered quiet)) <->
  rt_listeners (registered quiet) AMQP_CONNECTION_DISCONNECTED = 0%nat.
Proof.
  apply (disconnect_warning_iff_no_listener dropped "default" peer_close
           (registered quiet)).
  reflexivity.
Defined.

(** X11. In a process whose [AppService] has bound its listener, no
    [disconnected] event is answered with [disconnect event not emitted];
    and when nobody else listens to [AMQP_CONNECTION_RECONNECT], every
    reopen that succeeds in the timeout logs [reconnect event not emitted]. *)
Theorem appService_listener_hears_disconnects (env : Env) (token : string)
    (s : Runtime) (listeners : BusEvent -> nat) :
  installed s ->
  rt_listeners s = bindListener listeners ->
  (forall context : EventContext,
     Log warn ["disconnect event not emitted"] ∉
       effects (step env token (Raises disconnected context) s)) /\
  (forall (d : Z) (pending : list Z),
     listeners AMQP_CONNECTION_RECONNECT = 0%nat ->
     rt_timers s = d :: pending ->
     settled (open_outcome env (rt_opens s)) = Resolved ->
     Log warn ["reconnect event not emitted"] ∈ effects (step env token TimerFires s)).
Proof.
  intros H Hl. split.
  - intros context Hin.
    apply (disconnect_warning_iff_no_listener env token context s H) in Hin.
    rewrite Hl in Hin. discriminate.
  - intros d pending Hnone Ht Hs. cbn [step].
    rewrite (fire_run _ _ _ _ _ Ht).
    assert (H0 : installed (with_timers pending s)) by exact H.
    rewrite (reopen_run _ _ _ H0).
    destruct (connection_open_attempted env token _ H0)
      as (Hres & _ & _ & _ & Hls & _).
    cbn [with_timers rt_opens rt_listeners] in Hres, Hls.
    rewrite Hres, Hs, Hls, Hl. cbn [bindListener effects snd]. rewrite Hnone.
    apply elem_of_cons. right.
    apply elem_of_app. right. apply elem_of_app. right. apply elem_of_app. left.
    rewrite bool_decide_eq_false_2 by lia.
    apply elem_of_cons. right. apply elem_of_cons. right.
    apply list_elem_of_singleton. reflexivity.
Qed.

Lemma appService_listener_hears_disconnects_witness :
  (forall context : EventContext,
     Log warn ["disconnect event not emitted"] ∉
       effects (step closing "default" (Raises disconnected context)
                  (with_timers [1000] (registered (bindListener quiet))))) /\
  (forall (d : Z) (pending : list Z),
     quiet AMQP_CONNECTION_RECONNECT = 0%nat ->
     rt_timers (with_timers [1000] (registered (bindListener quiet))) = d :: pending ->
     settled (open_outcome closing
                (rt_opens (with_timers [1000] (registered (bindListener quiet))))) =
       Resolved ->
     Log warn ["reconnect event not emitted"] ∈
       effects (step closing "default" TimerFires
                  (with_timers [1000] (registered (bindListener quiet))))).
Proof.
  apply (appService_listener_hears_disconnects closing "default"
           (with_timers [1000] (registered (bindListener quiet))) quiet);
    reflexivity.
Defined.

(** ** Further properties of the links *)

(** X12. How [createReceiver] fails: with the container's not-found error
    exactly when nothing is registered under [connectionToken], with a
    [TypeError] exactly when the provider registered there is [undefined];
    on every failure no credit has been granted and nothing is logged; on
    success exactly [credits] has been granted; the container is never
    changed. *)
Theorem createReceiver_failure_modes (lib : Transport) (svc : Service)
    (options : CreateReceiverOptions) :
  (createReceiver lib svc options).1.2 = svc /\
  ((createReceiver lib svc options).1.1 = inl (UnknownElement (connectionToken options)) <->
   moduleRef svc !! connectionToken options = None) /\
  ((createReceiver lib svc options).1.1 = inl TypeError <->
   moduleRef svc !! connectionToken options = Some None) /\
  (forall thrown : JsError,
     (createReceiver lib svc options).1.1 = inl thrown ->
     (createReceiver lib svc options).2 = []) /\
  (forall receiver : Receiver,
     (createReceiver lib svc options).1.1 = inr receiver ->
     granted (createReceiver lib svc options).2 = [credits options]).
Proof.
  unfold createReceiver, moduleRef_get.
  destruct (moduleRef svc !! connectionToken options) as [[connection|]|].
  - destruct (rhea_createReceiver lib connection (receiverOptions options))
      as [rejected|attached]; cbn;
      repeat split; try congruence; try discriminate.
  - cbn. repeat split; try congruence; try discriminate.
  - cbn. repeat split; try congruence; try discriminate.
Qed.

(** X13. [createSender] fails with a [TypeError] exactly when the provider
    registered under the resolved token is [undefined], which is what
    [createConnection] resolves with after a successful retry. *)
Theorem createSender_undefined_provider (env : Env) (lib : Transport)
    (svc : Service) (options : CreateSenderOptions) :
  (createSender env lib svc options).1 = inl TypeError <->
  moduleRef svc !!
    getConnectionToken env
      (match connectionName options with Some n => ArgName n | None => ArgMissing end) =
  Some None.
Proof.
  unfold createSender, moduleRef_get.
  destruct (moduleRef svc !! _) as [[connection|]|].
  - destruct (rhea_createAwaitableSender lib connection (senderOptions options));
      cbn; split; discriminate.
  - cbn. split; reflexivity.
  - cbn. split; discriminate.
Qed.

Lemma receiver_deliver_to_keeps (hs : list ReceiverEvents) (lib : Transport)
    (prefetch : Z) (e : ReceiverEvents) (receiver : Receiver) :
  e <> receiverOpen ->
  (receiver_deliver_to hs lib prefetch e receiver).1 = receiver /\
  granted (receiver_deliver_to hs lib prefetch e receiver).2 = [].
Proof.
  intros He. induction hs as [|h hs IH]; [split; reflexivity|].
  cbn [receiver_deliver_to].
  destruct IH as (IHr & IHg).
  destruct (decide (h = e)) as [->|Hne].
  - destruct e; try congruence; cbn [on_receiver];
      destruct (receiver_deliver_to hs lib prefetch _ receiver) as [r2 t2];
      cbn in *; subst r2; rewrite IHg; split; reflexivity.
  - destruct (receiver_deliver_to hs lib prefetch e receiver) as [r2 t2].
    cbn in *. subst r2. rewrite IHg. split; reflexivity.
Qed.

(** X14. Of the receiver events only [receiverOpen] touches the credit:
    close, drained, flow and settled events leave the receiver exactly as it
    was and grant nothing, whatever is registered on it. *)
Theorem other_receiver_events_keep_credit (lib : Transport) (prefetch : Z)
    (e : ReceiverEvents) (receiver : Receiver) :
  e <> receiverOpen ->
  (receiver_raise lib prefetch e receiver).1 = receiver /\
  granted (receiver_raise lib prefetch e receiver).2 = [].
Proof.
  intros He. apply receiver_deliver_to_keeps, He.
Qed.

Lemma other_receiver_events_keep_credit_witness :
  (receiver_raise rhea 2 receiverFlow (demo_receiver 1)).1 = demo_receiver 1 /\
  granted (receiver_raise rhea 2 receiverFlow (demo_receiver 1)).2 = [].
Proof.
  apply (other_receiver_events_keep_credit rhea 2 receiverFlow (demo_receiver 1)).
  discriminate.
Defined.

(** X15. The [receiverOpen] handler leaves the receiver with the larger of
    its credit and [credits], and a second confirmation right after the
    first grants nothing. *)
Theorem receiverOpen_tops_up_once (lib : Transport) (prefetch : Z)
    (receiver : Receiver) :
  adds_credit lib ->
  credit (on_receiverOpen lib prefetch receiver).1 = Z.max (credit receiver) prefetch /\
  (on_receiverOpen lib prefetch (on_receiverOpen lib prefetch receiver).1).1 =
    (on_receiverOpen lib prefetch receiver).1 /\
  granted (on_receiverOpen lib prefetch (on_receiverOpen lib prefetch receiver).1).2 = [].
Proof.
  intros Hlib.
  assert (Hc : credit (on_receiverOpen lib prefetch receiver).1 =
               Z.max (credit receiver) prefetch).
  { unfold on_receiverOpen.
    destruct (decide (credit receiver < prefetch)); cbn.
    - rewrite Hlib by lia. lia.
    - lia. }
  split; [exact Hc|].
  set (r1 := (on_receiverOpen lib prefetch receiver).1) in *.
  clearbody r1. unfold on_receiverOpen.
  destruct (decide (credit r1 < prefetch)); [lia|].
  split; reflexivity.
Qed.

Lemma receiverOpen_tops_up_once_witness :
  credit (on_receiverOpen rhea 5 (demo_receiver 2)).1 = Z.max (credit (demo_receiver 2)) 5 /\
  (on_receiverOpen rhea 5 (on_receiverOpen rhea 5 (demo_receiver 2)).1).1 =
    (on_receiverOpen rhea 5 (demo_receiver 2)).1 /\
  granted (on_receiverOpen rhea 5 (on_receiverOpen rhea 5 (demo_receiver 2)).1).2 = [].
Proof.
  apply (receiverOpen_tops_up_once rhea 5 (demo_receiver 2)).
  exact rhea_adds_credit.
Defined.

(** * Properties of [AppService] and of the entry point *)

(** X16. [getRandomGroupId] returns one of the two group names for every
    value [Math.random()] can take: [GroupA] when the floored hundredfold is
    even, [GroupB] when it is odd; never [undefined]. *)
Theorem getRandomGroupId_in_groups (w : World) (c : Reads) :
  0 <= random w (draws c) ->
  (getRandomGroupId w c).1 =
    Some (if Z.even (random w (draws c)) then "GroupA" else "GroupB") /\
  (getRandomGroupId w c).2 = next_draw c.
Proof.
  intros Hn. split; [|reflexivity].
  unfold getRandomGroupId, js_nth. cbn [fst].
  rewrite Z.rem_mod_nonneg by lia. rewrite Zmod_even.
  destruct (Z.even (random w (draws c))); reflexivity.
Qed.

Lemma getRandomGroupId_in_groups_witness :
  (getRandomGroupId steady {| dates := 0; draws := 7 |}).1 =
    Some (if Z.even (random steady 7) then "GroupA" else "GroupB") /\
  (getRandomGroupId steady {| dates := 0; draws := 7 |}).2 =
    next_draw {| dates := 0; draws := 7 |}.
Proof.
  apply (getRandomGroupId_in_groups steady {| dates := 0; draws := 7 |}).
  cbn. lia.
Defined.

(** X17. [sendMessageWithOptions] makes exactly one send, to [demo2] on the
    connection [custom]; its correlation identifier is always [GROUP:]
    followed by the group identifier of the same message, which is one of
    the two group names; the message identifier is the time read first and
    the body carries the time read second. *)
Theorem sendMessageWithOptions_correlates (w : World) (c : Reads) :
  0 <= random w (draws c) ->
  exists (g : string) (body : SimpleMessage) (options : SendOptions),
    (sendMessageWithOptions w c).2 = [Sends "demo2" body (Some options)] /\
    send_connectionName options = Some "custom" /\
    group_id options = Some g /\
    correlation_id options = Some ("GROUP:" +:+ g) /\
    (g = "GroupA" \/ g = "GroupB") /\
    message_id options = Some (now w (dates c)) /\
    timestamp body = toISOString w (now w (S (dates c))).
Proof.
  intros Hn. unfold sendMessageWithOptions.
  destruct (getRandomGroupId_in_groups w (next_date c) Hn) as (Hg & Hc).
  destruct (getRandomGroupId w (next_date c)) as [groupId c1].
  cbn [fst snd] in Hg, Hc. subst groupId c1.
  cbn [next_date next_draw dates draws].
  set (g := if Z.even (random w (draws c)) then "GroupA" else "GroupB").
  exists g. eexists _, _.
  destruct (send w "demo2" _ _); cbn [snd];
    (split; [reflexivity|]); cbn;
    repeat split; unfold g; destruct (Z.even _); auto.
Qed.

Lemma sendMessageWithOptions_correlates_witness :
  exists (g : string) (body : SimpleMessage) (options : SendOptions),
    (sendMessageWithOptions steady unread).2 = [Sends "demo2" body (Some options)] /\
    send_connectionName options = Some "custom" /\
    group_id options = Some g /\
    correlation_id options = Some ("GROUP:" +:+ g) /\
    (g = "GroupA" \/ g = "GroupB") /\
    message_id options = Some (now steady (dates unread)) /\
    timestamp body = toISOString steady (now steady (S (dates unread))).
Proof.
  apply (sendMessageWithOptions_correlates steady unread).
  cbn. lia.
Defined.

(** ** The load tests *)

Lemma loadTestA_loop_settled (w : World) (topic : string) (keys : list Z) :
  (forall body, exists result, send w topic body None = Settles result) ->
  forall c : Reads,
    (loadTestA_loop w topic keys c).1.1 = inr tt /\
    sent (loadTestA_loop w topic keys c).2 = Some <$> keys /\
    alternates (loadTestA_loop w topic keys c).2 = true /\
    length (lines (loadTestA_loop w topic keys c).2) = length keys /\
    dates (loadTestA_loop w topic keys c).1.2 = (dates c + length keys)%nat.
Proof.
  intros Hs. induction keys as [|i keys IH]; intros c.
  - cbn. repeat split; lia.
  - cbn [loadTestA_loop].
    destruct (Hs {| index := Some i; timestamp := toISOString w (now w (dates c)) |})
      as (result & ->).
    destruct (IH (next_date c)) as (Hr & Hsent & Halt & Hlen & Hd).
    destruct (loadTestA_loop w topic keys (next_date c)) as [[r c'] t].
    cbn [fst snd] in *.
    assert (Hrep : exists line, report topic i result = Info line \/
                                report topic i result = Failure line).
    { unfold report. destruct (truthy (send_error result)); eauto. }
    destruct Hrep as (line & [-> | ->]); cbn [sent lines alternates fmap list_fmap length];
      rewrite Hsent, Halt, Hlen, Hd; cbn; repeat split; (assumption || lia).
Qed.

(** X18. [loadTestA] with a valid [count] and a producer that settles every
    send: it sends the indices 0 to [count - 1] in this order, logs the line
    of each send before it makes the next one, reads the clock once per
    message and resolves. *)
Theorem loadTestA_sends_in_order (w : World) (count : Z) (c : Reads) :
  0 <= count < 2 ^ 32 ->
  (forall body, exists result, send w "Topic:LoadTestA" body None = Settles result) ->
  (loadTestA w count c).1.1 = inr tt /\
  sent (loadTestA w count c).2 = Some <$> seqZ 0 count /\
  alternates (loadTestA w count c).2 = true /\
  length (lines (loadTestA w count c).2) = Z.to_nat count /\
  dates (loadTestA w count c).1.2 = (dates c + Z.to_nat count)%nat.
Proof.
  intros Hc Hs. unfold loadTestA, array_keys.
  destruct (decide (0 <= count < 2 ^ 32)); [|contradiction].
  destruct (loadTestA_loop_settled w "Topic:LoadTestA" (seqZ 0 count) Hs c)
    as (Hr & Hsent & Halt & Hlen & Hd).
  rewrite length_seqZ in Hlen, Hd. repeat split; assumption.
Qed.

Lemma loadTestA_sends_in_order_witness :
  (loadTestA steady 4 unread).1.1 = inr tt /\
  sent (loadTestA steady 4 unread).2 = Some <$> seqZ 0 4 /\
  alternates (loadTestA steady 4 unread).2 = true /\
  length (lines (loadTestA steady 4 unread).2) = Z.to_nat 4 /\
  dates (loadTestA steady 4 unread).1.2 = (dates unread + Z.to_nat 4)%nat.
Proof.
  apply (loadTestA_sends_in_order steady 4 unread).
  - lia.
  - intros body. eexists. reflexivity.
Defined.

Lemma loadTestA_loop_rejected (w : World) (topic : string) (reason : string)
    (j : Z) (after_j : list Z) (before : list Z) :
  (forall body, index body = Some j -> send w topic body None = Throws reason) ->
  (forall body i, index body = Some i -> i ∈ before ->
                  exists result, send w topic body None = Settles result) ->
  forall c : Reads,
    (loadTestA_loop w topic (before ++ j :: after_j) c).1.1 =
      inl (SendRejected reason) /\
    sent (loadTestA_loop w topic (before ++ j :: after_j) c).2 =
      Some <$> (before ++ [j]) /\
    length (lines (loadTestA_loop w topic (before ++ j :: after_j) c).2) =
      length before.
Proof.
  intros Hj. induction before as [|i before IH]; intros Hs c.
  - cbn [app loadTestA_loop]. rewrite Hj by reflexivity. repeat split.
  - cbn [app loadTestA_loop].
    destruct (Hs {| index := Some i; timestamp := toISOString w (now w (dates c)) |} i)
      as (result & ->); [reflexivity | apply elem_of_cons; left; reflexivity |].
    destruct (IH (fun body i' Hb Hin =>
                    Hs body i' Hb (proj2 (elem_of_cons _ _ _) (or_intror Hin)))
                (next_date c)) as (Hr & Hsent & Hlen).
    destruct (loadTestA_loop w topic (before ++ j :: after_j) (next_date c))
      as [[r c'] t].
    cbn [fst snd] in *.
    assert (Hrep : exists line, report topic i result = Info line \/
                                report topic i result = Failure line).
    { unfold report. destruct (truthy (send_error result)); eauto. }
    destruct Hrep as (line & [-> | ->]); cbn [sent lines fmap list_fmap length];
      rewrite Hsent, Hlen; cbn; repeat split; assumption.
Qed.

(** X19. [loadTestA] stops at the first send the producer rejects: the
    indices up to that one have been sent in order, each earlier one with
    its line logged, no later index is ever sent, and [loadTestA] rejects
    with the reason of the producer. *)
Theorem loadTestA_stops_at_first_rejection (w : World) (count j : Z) (c : Reads)
    (reason : string) :
  0 <= j < count ->
  count < 2 ^ 32 ->
  (forall body, index body = Some j ->
                send w "Topic:LoadTestA" body None = Throws reason) ->
  (forall body i, index body = Some i -> 0 <= i < j ->
                  exists result, send w "Topic:LoadTestA" body None = Settles result) ->
  (loadTestA w count c).1.1 = inl (SendRejected reason) /\
  sent (loadTestA w count c).2 = Some <$> seqZ 0 (j + 1) /\
  length (lines (loadTestA w count c).2) = Z.to_nat j.
Proof.
  intros Hj Hc Hthrows Hsettles. unfold loadTestA, array_keys.
  destruct (decide (0 <= count < 2 ^ 32)); [|lia].
  replace count with (j + (count - j)) by lia.
  rewrite seqZ_app by lia.
  rewrite (seqZ_cons (0 + j)) by lia.
  rewrite (seqZ_app 0 j 1) by lia.
  rewrite (seqZ_cons (0 + j) 1) by lia. rewrite (seqZ_nil _ (Z.pred 1)) by lia.
  replace (0 + j) with j by lia.
  destruct (loadTestA_loop_rejected w "Topic:LoadTestA" reason j
              (seqZ (Z.succ j) (Z.pred (count - j))) (seqZ 0 j) Hthrows) with (c := c)
    as (Hr & Hsent & Hlen).
  - intros body i Hb Hin. apply (Hsettles body i Hb).
    apply elem_of_seqZ in Hin. lia.
  - rewrite length_seqZ in Hlen. repeat split; assumption.
Qed.

Lemma loadTestA_stops_at_first_rejection_witness :
  (loadTestA failing_third 5 unread).1.1 = inl (SendRejected "connection lost") /\
  sent (loadTestA failing_third 5 unread).2 = Some <$> seqZ 0 (2 + 1) /\
  length (lines (loadTestA failing_third 5 unread).2) = Z.to_nat 2.
Proof.
  apply (loadTestA_stops_at_first_rejection failing_third 5 2 unread "connection lost").
  - lia.
  - lia.
  - intros body Hb. cbn. rewrite Hb. reflexivity.
  - intros body i Hb Hi. cbn. rewrite Hb.
    destruct i as [|[| |]|]; try lia; eexists; reflexivity.
Defined.

Lemma loadTestB_each_all (w : World) (topic : string) (keys : list Z) :
  forall c : Reads,
    pending_index <$> (loadTestB_each w topic keys c).1.1 = keys /\
    sent (loadTestB_each w topic keys c).2 = Some <$> keys /\
    lines (loadTestB_each w topic keys c).2 = [] /\
    dates (loadTestB_each w topic keys c).1.2 = (dates c + length keys)%nat.
Proof.
  induction keys as [|i keys IH]; intros c.
  - cbn. repeat split; lia.
  - cbn [loadTestB_each].
    destruct (IH (next_date c)) as (Hp & Hsent & Hl & Hd).
    destruct (loadTestB_each w topic keys (next_date c)) as [[ps c'] t].
    cbn [fst snd] in *. cbn [fmap list_fmap sent lines pending_index].
    rewrite Hsent, Hl, Hd. cbn. repeat split; try lia.
    f_equal. exact Hp.
Qed.

(** X20. [loadTestB] never waits for a send: whatever the producer does with
    the messages, also when it rejects them, [loadTestB] has made all
    [count] sends, indices 0 to [count - 1] in order, and has logged nothing
    when its own promise resolves; it fails only with the [RangeError] of
    an invalid [count], before sending anything. *)
Theorem loadTestB_sends_all_without_waiting (w : World) (count : Z) (c : Reads) :
  (0 <= count < 2 ^ 32 ->
   exists pending : list Pending,
     (loadTestB w count c).1.1 = inr pending /\
     pending_index <$> pending = seqZ 0 count /\
     sent (loadTestB w count c).2 = Some <$> seqZ 0 count /\
     lines (loadTestB w count c).2 = []) /\
  (~ 0 <= count < 2 ^ 32 -> loadTestB w count c = (inl RangeError, c, [])) /\
  (forall reason, (loadTestB w count c).1.1 <> inl (SendRejected reason)).
Proof.
  unfold loadTestB, array_keys.
  destruct (decide (0 <= count < 2 ^ 32)) as [Hc|Hc].
  - destruct (loadTestB_each_all w "Topic:LoadTestB" (seqZ 0 count) c)
      as (Hp & Hsent & Hl & _).
    destruct (loadTestB_each w "Topic:LoadTestB" (seqZ 0 count) c) as [[ps c'] t].
    cbn [fst snd] in *.
    split; [|split]; [| contradiction | discriminate].
    intros _. exists ps. repeat split; assumption.
  - split; [|split]; [contradiction | reflexivity | discriminate].
Qed.

(** ** The entry point *)

(** X22. The process exits exactly when [NestFactory.create] or
    [app.listen] rejects, and never otherwise.  The exit has code 1 and is
    the last thing the process does, directly after the one line it logs as
    an error, ["Nest application error: "] followed by the message of the
    rejection; when nothing rejects, nothing is logged as an error.  The
    process does not listen when the application could not be created.
    [app.listen] is given [APP_PORT] as it is, a string, when the variable
    is set and not empty, and the number 3000 when it is unset or empty. *)
Theorem main_exits_iff_bootstrap_fails (p : Startup) :
  (Exits 1 ∈ main p <->
   create_fails p <> None \/ listen_fails p (port_of p) <> None) /\
  (forall code, Exits code ∈ main p ->
     code = 1 /\
     exists t message,
       main p = t ++ [LogsError ("Nest application error: " +:+ message); Exits 1] /\
       (create_fails p = Some message /\ t = [Creates] \/
        create_fails p = None /\ listen_fails p (port_of p) = Some message /\
        t = [Creates; Listens (port_of p)])) /\
  (create_fails p = None -> listen_fails p (port_of p) = None ->
   main p = [Creates; Listens (port_of p)]) /\
  (forall port, Listens port ∈ main p -> create_fails p = None /\ port = port_of p) /\
  (forall value, port_of p = EnvPort value <-> APP_PORT p = Some value /\ value <> "") /\
  (forall number, port_of p = DefaultPort number <->
     number = 3000 /\ (APP_PORT p = None \/ APP_PORT p = Some "")).
Proof.
  assert (Henv : forall value,
             port_of p = EnvPort value <-> APP_PORT p = Some value /\ value <> "").
  { intros value. unfold port_of. destruct (APP_PORT p) as [v|]; [|intuition congruence].
    destruct (decide (v = "")) as [->|]; intuition congruence. }
  assert (Hdef : forall number,
             port_of p = DefaultPort number <->
             number = 3000 /\ (APP_PORT p = None \/ APP_PORT p = Some "")).
  { intros number. unfold port_of. destruct (APP_PORT p) as [v|]; [|intuition congruence].
    destruct (decide (v = "")) as [->|]; intuition congruence. }
  split; [|split; [|split; [|split; [|split; [exact Henv | exact Hdef]]]]];
    clear Henv Hdef; unfold main, bootstrap.
  - destruct (create_fails p) as [message|];
      [|destruct (listen_fails p (port_of p)) as [message|]]; cbn [app];
      rewrite ?elem_of_cons, ?elem_of_nil; intuition congruence.
  - intros code.
    destruct (create_fails p) as [message|];
      [|destruct (listen_fails p (port_of p)) as [message|]]; cbn [app];
      rewrite ?elem_of_cons, ?elem_of_nil; intros Hin.
    + split; [intuition congruence|].
      exists [Creates], message. split; [reflexivity|]. left. split; reflexivity.
    + split; [intuition congruence|].
      exists [Creates; Listens (port_of p)], message.
      split; [reflexivity|]. right. repeat split; reflexivity.
    + exfalso. intuition congruence.
  - intros -> ->. reflexivity.
  - intros port.
    destruct (create_fails p) as [message|];
      [|destruct (listen_fails p (port_of p)) as [message|]]; cbn [app];
      rewrite ?elem_of_cons, ?elem_of_nil; intuition congruence.
Qed.
